(** * Verification of the car-insurance responder ([app.py])

    The program answers a free-text question from two static tables, the
    coverage definitions and the policy plans.  This development embeds the
    tables, the two formatters ([format_currency], [plan_info]) and the
    responder ([answer_question]), and proves the properties stated of them.

    Representation.  A Python [str] is represented by its UTF-8 encoding, a
    [string] of bytes: equality, concatenation, substring search for an
    ASCII text and splitting at an ASCII character read the same on the
    encoding.  A Python [int] is a [Z].  A [dict] whose iteration order the
    program relies on is an association list in insertion order.  Python
    code that can raise returns a [result].

    [str.lower] on a question that is not ASCII goes through the Unicode
    case mapping of the runtime; the responder takes that mapping as a
    parameter, and every property is proved for all mappings. *)

From Stdlib Require Import String Ascii List ZArith NArith Bool Lia Arith.
From Stdlib Require Import DecimalString DecimalN DecimalNat.
Import ListNotations.
Local Open Scope list_scope.
Local Open Scope string_scope.

(** ** Exceptions *)

Inductive exn : Type :=
| KeyError (key : string)
| IndexError
| OverflowError.

Inductive result (A : Type) : Type :=
| Ok (a : A)
| Raise (e : exn).
Arguments Ok {A} a.
Arguments Raise {A} e.

Definition bind {A B : Type} (r : result A) (k : A -> result B) : result B :=
  match r with
  | Ok a => k a
  | Raise e => Raise e
  end.

Notation "x <- r ;; k" := (bind r (fun x => k))
  (at level 61, r at next level, right associativity).

(** [[f(x) for x in l]] where [f] may raise: left to right, the first
    exception wins. *)
Fixpoint mapM {A B : Type} (f : A -> result B) (l : list A) : result (list B) :=
  match l with
  | [] => Ok []
  | x :: rest =>
      y <- f x ;;
      ys <- mapM f rest ;;
      Ok (y :: ys)
  end.

(** ** The operations of the Python runtime that the program calls *)

Module Py.

(** U+202F NARROW NO-BREAK SPACE, in UTF-8 the bytes E2 80 AF. *)
Definition NNBSP : string :=
  String (ascii_of_nat 226) (String (ascii_of_nat 128)
    (String (ascii_of_nat 175) EmptyString)).

(** The line feed of ["\n"]. *)
Definition LF : string := String (ascii_of_nat 10) EmptyString.

Definition is_upper (c : ascii) : bool :=
  ((65 <=? nat_of_ascii c) && (nat_of_ascii c <=? 90))%nat.

Definition is_lower (c : ascii) : bool :=
  ((97 <=? nat_of_ascii c) && (nat_of_ascii c <=? 122))%nat.

Definition is_alpha (c : ascii) : bool := is_upper c || is_lower c.

Definition ascii_lower (c : ascii) : ascii :=
  if is_upper c then ascii_of_nat (nat_of_ascii c + 32) else c.

Definition ascii_upper (c : ascii) : ascii :=
  if is_lower c then ascii_of_nat (nat_of_ascii c - 32) else c.

Fixpoint map_string (f : ascii -> ascii) (s : string) : string :=
  match s with
  | EmptyString => EmptyString
  | String c rest => String (f c) (map_string f rest)
  end.

(** [s.isascii()]: every code point is below 128, that is, every byte is. *)
Fixpoint isascii (s : string) : bool :=
  match s with
  | EmptyString => true
  | String c rest => (nat_of_ascii c <? 128)%nat && isascii rest
  end.

(** [s.lower()].  CPython lower-cases an ASCII string letter by letter and
    sends any other string through the full Unicode case mapping, a table of
    the runtime that is a parameter here. *)
Definition lower (unicode_lower : string -> string) (s : string) : string :=
  if isascii s then map_string ascii_lower s else unicode_lower s.

(** [s.title()] on an ASCII string: a letter that follows a letter is
    lower-cased, any other letter is upper-cased. *)
Fixpoint title_from (previous_is_cased : bool) (s : string) : string :=
  match s with
  | EmptyString => EmptyString
  | String c rest =>
      String (if previous_is_cased then ascii_lower c else ascii_upper c)
             (title_from (is_alpha c) rest)
  end.

Definition title (s : string) : string := title_from false s.

(** [sub in s]. *)
Fixpoint str_in (sub s : string) : bool :=
  prefix sub s ||
  match s with
  | EmptyString => false
  | String _ rest => str_in sub rest
  end.

(** [s.replace(a, b)] for one-character [a] and [b]. *)
Definition replace (a b : ascii) (s : string) : string :=
  map_string (fun c => if Ascii.eqb c a then b else c) s.

(** [s.split(sep)] for a one-character [sep]; the result is never empty. *)
Fixpoint split (sep : ascii) (s : string) : list string :=
  match s with
  | EmptyString => [EmptyString]
  | String c rest =>
      if Ascii.eqb c sep then EmptyString :: split sep rest
      else match split sep rest with
           | [] => [String c EmptyString]
           | w :: ws => String c w :: ws
           end
  end.

(** [sep.join(l)]. *)
Definition join (sep : string) (l : list string) : string := String.concat sep l.

(** [any(p(x) for x in l)]. *)
Definition any {A : Type} (p : A -> bool) (l : list A) : bool := existsb p l.

(** [re.search(pattern, s)] as a truth value, for the patterns the program
    builds: literal characters and the alternation bar, no other regular
    expression syntax.  Such a pattern matches when one of its alternatives
    occurs in [s]. *)
Definition re_search (pattern s : string) : bool :=
  any (fun alternative => str_in alternative s) (split "|" pattern).

(** The characters with a meaning of their own in a regular expression,
    the alternation bar apart. *)
Definition re_special (c : ascii) : bool :=
  str_in (String c EmptyString) ".^$*+?{}[]\()".

Fixpoint no_re_special (s : string) : bool :=
  match s with
  | EmptyString => true
  | String c rest => negb (re_special c) && no_re_special rest
  end.

(** *** [float(n)] and the format specification [,.0f] *)

(** [float(n)] for an [int]: the nearest double, ties to even; every such
    double is an integer, so the value is kept as a [Z].  A magnitude that
    rounds to [2^1024] raises [OverflowError]. *)
Definition float_of_int (n : Z) : result Z :=
  let a := Z.abs n in
  let bits := if (a =? 0)%Z then 0%Z else (Z.log2 a + 1)%Z in
  if (bits <=? 53)%Z then Ok n
  else
    let shift := (bits - 53)%Z in
    let q := Z.shiftr a shift in
    let r := (a - Z.shiftl q shift)%Z in
    let half := Z.shiftl 1 (shift - 1) in
    let q' := if (half <? r)%Z || ((r =? half)%Z && Z.odd q)
              then (q + 1)%Z else q in
    let v := Z.shiftl q' shift in
    if (Z.shiftl 1 1024 <=? v)%Z then Raise OverflowError
    else Ok (Z.sgn n * v)%Z.

(** The decimal digits of a natural number. *)
Definition digits (n : N) : string := NilEmpty.string_of_uint (N.to_uint n).

(** A comma before every complete group of three digits, counted from the
    right; the argument and the result are in reverse order. *)
Fixpoint group3_rev (ds : list ascii) : list ascii :=
  match ds with
  | a :: b :: c :: ((_ :: _) as rest) =>
      a :: b :: c :: ","%char :: group3_rev rest
  | _ => ds
  end.

Definition group_thousands (s : string) : string :=
  string_of_list_ascii (rev (group3_rev (rev (list_ascii_of_string s)))).

(** [format(x, ",.0f")] for a double [x] that is an integer: sign, then the
    exact digits grouped by thousands, no decimal point. *)
Definition format_comma_0f (x : Z) : string :=
  (if (x <? 0)%Z then "-" else EmptyString)
  ++ group_thousands (digits (Z.to_N (Z.abs x))).

End Py.

(** ** Data definitions *)

(** [COVERAGE_DEFINITIONS], in insertion order. *)

Definition definition_ctpl : string :=
  "**Compulsory Third Party Liability (CTPL)** is the only form of car"
  ++ " insurance required by law in the Philippines.  It pays for injuries or"
  ++ " death you cause to someone outside your vehicle – for example a"
  ++ " pedestrian, passenger in another car or a non‑family member.  The LTO"
  ++ " requires CTPL before a vehicle can be registered and a standard"
  ++ " policy typically covers up to PHP 100,000【388055955070738†L96-L110】.".

Definition definition_own_damage : string :=
  "**Own Damage** coverage pays to repair or replace your vehicle if it"
  ++ " is damaged or stolen.  It is optional but strongly recommended"
  ++ " because CTPL only covers third parties and will not pay for your own"
  ++ " car【88305912757905†L115-L136】.  Policies often have a deductible you must"
  ++ " pay before the insurer covers the remaining cost.".

Definition definition_acts_of_god : string :=
  "**Acts of God (Acts of Nature)** coverage protects you from"
  ++ " losses caused by natural calamities such as typhoons, floods or"
  ++ " earthquakes【88305912757905†L138-L150】.  Some policies cover volcanic eruptions and"
  ++ " landslides as well【388055955070738†L188-L204】.  Acts of God coverage is usually"
  ++ " an optional add‑on and costs vary by vehicle value.".

Definition definition_personal_accident : string :=
  "**Personal Accident** coverage pays for medical expenses, disability"
  ++ " benefits and accidental death benefits for the driver and passengers"
  ++ " of the insured vehicle【88305912757905†L153-L161】.  Some policies specify a"
  ++ " fixed benefit per passenger while others provide a lump sum.".

Definition definition_malicious_mischief : string :=
  "**Acts of Malicious Mischief** coverage pays to repair your car if it"
  ++ " is intentionally damaged by someone else.  Examples include"
  ++ " vandalism, keying the paint or damage caused by riots or civil unrest"
  ++ "【88305912757905†L163-L172】.".

Definition definition_roadside_assistance : string :=
  "**Roadside Assistance** covers services such as towing, fuel delivery and"
  ++ " jump‑starting your vehicle when it breaks down.  Some policies also"
  ++ " include emergency medical evacuation【88305912757905†L174-L181】.".

Definition definition_loss_of_use : string :=
  "**Loss of Use** coverage reimburses you for the cost of renting a"
  ++ " replacement vehicle while your insured car is being repaired due to a"
  ++ " covered accident or theft【88305912757905†L184-L191】.  Policies specify daily"
  ++ " and maximum limits.".

Definition COVERAGE_DEFINITIONS : list (string * string) :=
  [ ("ctpl", definition_ctpl);
    ("own damage", definition_own_damage);
    ("acts of god", definition_acts_of_god);
    ("personal accident", definition_personal_accident);
    ("malicious mischief", definition_malicious_mischief);
    ("roadside assistance", definition_roadside_assistance);
    ("loss of use", definition_loss_of_use) ].

(** A value of [POLICY_PLANS]. *)
Record plan : Type := {
  premium : Z;
  description : string;
  coverage : list string;
  limits : list (string * Z)
}.

Definition description_basic : string :=
  "Our entry‑level plan provides legally required CTPL protection and"
  ++ " offers affordable peace of mind for budget‑conscious drivers.".

Definition description_standard : string :=
  "A balanced plan that adds own damage and Acts of God coverage on top"
  ++ " of CTPL.  Ideal for drivers who want broader protection without"
  ++ " paying for all the bells and whistles.".

Definition description_premium : string :=
  "Our most comprehensive plan which includes all available coverage"
  ++ " types.  Perfect for new or high‑value vehicles and for owners who"
  ++ " want maximum peace of mind.".

Definition plan_basic : plan :=
  {| premium := 1800;
     description := description_basic;
     coverage := ["ctpl"];
     limits := [("ctpl", 100000%Z)] |}.

Definition plan_standard : plan :=
  {| premium := 7500;
     description := description_standard;
     coverage := ["ctpl"; "own damage"; "acts of god"];
     limits := [("ctpl", 100000%Z);
                ("own damage", 400000%Z);
                ("acts of god", 300000%Z)] |}.

Definition plan_premium : plan :=
  {| premium := 14000;
     description := description_premium;
     coverage := ["ctpl"; "own damage"; "acts of god"; "personal accident";
                  "malicious mischief"; "roadside assistance"; "loss of use"];
     limits := [("ctpl", 100000%Z);
                ("own damage", 800000%Z);
                ("acts of god", 600000%Z);
                ("personal accident", 200000%Z);
                ("malicious mischief", 300000%Z);
                ("roadside assistance", 0%Z);
                ("loss of use", 2500%Z)] |}.

(** [POLICY_PLANS], in insertion order. *)
Definition POLICY_PLANS : list (string * plan) :=
  [ ("Basic", plan_basic);
    ("Standard", plan_standard);
    ("Premium", plan_premium) ].

(** ** Helper functions *)

(** [format_currency]: the f-string is ["PHP"], the character U+202F
    NARROW NO-BREAK SPACE, and [{amount:,.0f}]; formatting an [int] with the
    type [f] converts it to a [float] first. *)
Definition format_currency (amount : Z) : result string :=
  x <- Py.float_of_int amount ;;
  Ok ("PHP" ++ Py.NNBSP ++ Py.format_comma_0f x).

(** [d[key]] for a [dict] kept as an association list. *)
Fixpoint getitem {A : Type} (d : list (string * A)) (key : string) : result A :=
  match d with
  | [] => Raise (KeyError key)
  | (k, v) :: rest => if String.eqb k key then Ok v else getitem rest key
  end.

(** [l.append(x)]. *)
Definition append_item {A : Type} (l : list A) (x : A) : list A := (l ++ [x])%list.

(** [l[0]]. *)
Definition item0 {A : Type} (l : list A) : result A :=
  match l with
  | [] => Raise IndexError
  | x :: _ => Ok x
  end.

(** [c.title() if c != "ctpl" else "CTPL"]. *)
Definition coverage_title (c : string) : string :=
  if negb (String.eqb c "ctpl") then Py.title c else "CTPL".

(** One pass of the loop over [plan["limits"].items()]: the clause appended
    to [limit_lines]. *)
Definition limit_line (item : string * Z) : result string :=
  let (cov, limit) := item in
  if String.eqb cov "roadside assistance" then
    Ok "Roadside assistance: service included"
  else if String.eqb cov "loss of use" then
    amount <- format_currency limit ;;
    Ok ("Loss of use: reimbursed up to " ++ amount ++ " per day")
  else
    amount <- format_currency limit ;;
    Ok (coverage_title cov ++ ": " ++ amount ++ " limit").

Definition plan_info (plan_name : string) : result string :=
  plan <- getitem POLICY_PLANS plan_name ;;
  let lines := ["**" ++ plan_name ++ " Plan**"] in
  let lines := append_item lines (description plan) in
  let lines := append_item lines EmptyString in
  let coverage_list := map coverage_title (coverage plan) in
  let lines :=
    append_item lines
      ("Included coverage: " ++ Py.join ", " coverage_list ++ ".") in
  amount <- format_currency (premium plan) ;;
  let lines := append_item lines ("Annual premium: " ++ amount ++ ".") in
  limit_lines <- mapM limit_line (limits plan) ;;
  let lines :=
    append_item lines
      ("Coverage limits: " ++ Py.join "; " limit_lines ++ ".") in
  Ok (Py.join Py.LF lines).

(** ** The responder *)

(** The test of the first loop of [answer_question]:
    [re.search(cov_key.replace(" ", "|"), q)], which the source comments as
    accepting variations of the keyword (acts of god, act of god). *)
Definition definition_matches (q : string) (item : string * string) : bool :=
  let pattern := Py.replace " " "|" (fst item) in
  Py.re_search pattern q.

Definition pricing_words : list string := ["price"; "cost"; "premium"; "rates"].

Definition overview_words : list string := ["coverage"; "covered"; "benefits"].

(** The answer of the price branch. *)
Definition pricing_response : result string :=
  let lines := ["Here are the annual premiums for our available plans:"] in
  plan_lines <-
    mapM (fun item : string * plan =>
            amount <- format_currency (premium (snd item)) ;;
            Ok ("- **" ++ fst item ++ " Plan**: " ++ amount))
         POLICY_PLANS ;;
  let lines := app lines plan_lines in
  let lines :=
    append_item lines
      (Py.LF ++ "Ask about a specific plan to see what it covers.") in
  Ok (Py.join Py.LF lines).

(** [definition.split(".")[0] + "."]. *)
Definition summary (definition : string) : result string :=
  first <- item0 (Py.split "." definition) ;;
  Ok (first ++ ".").

(** The answer of the general coverage branch. *)
Definition overview_response : result string :=
  let lines :=
    ["We offer several types of coverage.  Here's a quick overview:"] in
  bullets <-
    mapM (fun item : string * string =>
            s <- summary (snd item) ;;
            Ok ("- " ++ s))
         COVERAGE_DEFINITIONS ;;
  let lines := app lines bullets in
  let lines :=
    append_item lines
      (Py.LF
       ++ "You can ask about any of these coverage types for more information or"
       ++ " inquire about a specific plan.") in
  Ok (Py.join Py.LF lines).

Definition fallback_response : string :=
  "I'm sorry, I don't have an answer to that yet.  You can ask me about"
  ++ " car insurance coverage, premiums or one of our plans (Basic, Standard"
  ++ " or Premium).".

Section Responder.

(** The Unicode case mapping of the runtime, used by [lower] on a string
    that is not ASCII. *)
Variable unicode_lower : string -> string.

Definition answer_question (question : string) : result string :=
  let q := Py.lower unicode_lower question in
  match find (definition_matches q) COVERAGE_DEFINITIONS with
  | Some (_, definition) => Ok definition
  | None =>
      match
        find (fun plan_name => Py.str_in (Py.lower unicode_lower plan_name) q)
             (map fst POLICY_PLANS)
      with
      | Some plan_name => plan_info plan_name
      | None =>
          if Py.any (fun word => Py.str_in word q) pricing_words then
            pricing_response
          else if Py.any (fun word => Py.str_in word q) overview_words then
            overview_response
          else Ok fallback_response
      end
  end.

End Responder.

(** ** Streamlit UI *)

(** [if x:] for a value that is [None] or a [str]. *)
Definition truthy (x : option string) : bool :=
  match x with
  | Some (String _ _) => true
  | _ => false
  end.

(** An entry of [st.session_state.messages]. *)
Record message : Type := {
  role : string;
  content : string
}.

(** The calls that [main] makes on the page.  [chat_message role text] is
    [st.markdown(text)] inside [with st.chat_message(role)]. *)
Inductive st_call : Type :=
| set_page_config (page_title page_icon layout initial_sidebar_state : string)
| image (path : string) (use_column_width : bool) (width : Z)
| title (text : string)
| write (text : string)
| chat_message (role text : string)
| chat_input (placeholder : string).

(** What one run of the script reads from outside: the path of the header
    illustration, whether that file exists, and the value of
    [st.chat_input], [None] when nothing was submitted. *)
Record page_run : Type := {
  header_path : string;
  header_exists : bool;
  user_input : option string
}.

Section Page.

Variable unicode_lower : string -> string.

(** One run of [main].  [session_state] is the value under the key
    ["messages"], [None] when the key is absent.  The result is the value
    under that key after the run, the calls made on the page in order, and
    [Ok tt] or the exception that ended the run. *)
Definition main (session_state : option (list message)) (run : page_run)
  : list message * list st_call * result unit :=
  let calls :=
    [set_page_config "Car Insurance Chatbot Demo" "🚗" "wide" "collapsed"] in
  let calls :=
    if header_exists run
    then append_item calls (image (header_path run) false 350)
    else calls in
  let calls := append_item calls (title "Car Insurance Chatbot") in
  let calls :=
    append_item calls
      (write
         ("Ask me about car insurance coverage, example policy plans or premiums."
          ++ Py.LF
          ++ "This demo uses fictional data and should not be used as a real quote."))
  in
  let messages :=
    match session_state with
    | None => []
    | Some messages => messages
    end in
  let calls :=
    app calls (map (fun m => chat_message (role m) (content m)) messages) in
  let calls := append_item calls (chat_input "Type your question here...") in
  if truthy (user_input run) then
    let text :=
      match user_input run with
      | Some text => text
      | None => EmptyString
      end in
    let messages :=
      append_item messages {| role := "user"; content := text |} in
    match answer_question unicode_lower text with
    | Raise e => (messages, calls, Raise e)
    | Ok reply =>
        let messages :=
          append_item messages {| role := "assistant"; content := reply |} in
        let calls := append_item calls (chat_message "user" text) in
        let calls := append_item calls (chat_message "assistant" reply) in
        (messages, calls, Ok tt)
    end
  else (messages, calls, Ok tt).

(** The script runs once per interaction and [st.session_state] lives on
    between the runs: the history after a sequence of runs, and the calls
    of every run.  The session stops at a run that raises. *)
Fixpoint session (session_state : option (list message))
    (runs : list page_run) : list message * list (list st_call) * result unit :=
  match runs with
  | [] =>
      (match session_state with None => [] | Some messages => messages end,
       [], Ok tt)
  | run :: rest =>
      match main session_state run with
      | (messages, calls, Ok _) =>
          match session (Some messages) rest with
          | (final, pages, outcome) => (final, calls :: pages, outcome)
          end
      | (messages, calls, Raise e) => (messages, [calls], Raise e)
      end
  end.

End Page.

(** * The vocabulary of the properties *)

(** ** Substrings and key fragments *)

(** [sub] occurs in [s]. *)
Definition occurs (sub s : string) : Prop :=
  exists before after, s = before ++ sub ++ after.

(** The key contains no alternation bar. *)
Fixpoint no_bar (s : string) : bool :=
  match s with
  | EmptyString => true
  | String c rest => negb (Ascii.eqb c "|") && no_bar rest
  end.

(** Some space-separated fragment of [key] occurs in [q]. *)
Definition fragment_occurs (key q : string) : Prop :=
  exists fragment, In fragment (Py.split " " key) /\ occurs fragment q.

(** ** Answers *)

(** Equality of results, as a boolean. *)
Definition exn_eqb (e1 e2 : exn) : bool :=
  match e1, e2 with
  | KeyError k1, KeyError k2 => String.eqb k1 k2
  | IndexError, IndexError => true
  | OverflowError, OverflowError => true
  | _, _ => false
  end.

Definition same_answer (r1 r2 : result string) : bool :=
  match r1, r2 with
  | Ok a, Ok b => String.eqb a b
  | Raise e1, Raise e2 => exn_eqb e1 e2
  | _, _ => false
  end.

(** [sub in text] for an answer; [false] when the call raised. *)
Definition answer_contains (r : result string) (sub : string) : bool :=
  match r with
  | Ok text => Py.str_in sub text
  | Raise _ => false
  end.

(** ** The categories of a normalized question *)

(** Some coverage definition matches [q]. *)
Definition matches_definition (q : string) : Prop :=
  exists key definition,
    In (key, definition) COVERAGE_DEFINITIONS /\ fragment_occurs key q.

(** [(key, definition)] is the first entry of the table that matches [q]. *)
Definition first_matching_definition (q key definition : string) : Prop :=
  exists before after,
    COVERAGE_DEFINITIONS = (before ++ (key, definition) :: after)%list /\
    fragment_occurs key q /\
    (forall k d, In (k, d) before -> ~ fragment_occurs k q).

(** The keys of [POLICY_PLANS], in insertion order. *)
Definition plan_names : list string := map fst POLICY_PLANS.

Section Categories.

Variable unicode_lower : string -> string.

(** The lower-cased name of some plan occurs in [q]. *)
Definition names_plan (q : string) : Prop :=
  exists name,
    In name plan_names /\ occurs (Py.lower unicode_lower name) q.

(** [name] is the first plan of the table whose lower-cased name occurs in
    [q]. *)
Definition first_named_plan (q name : string) : Prop :=
  exists before after,
    plan_names = (before ++ name :: after)%list /\
    occurs (Py.lower unicode_lower name) q /\
    (forall n, In n before -> ~ occurs (Py.lower unicode_lower n) q).

End Categories.

(** One of [words] occurs in [q]. *)
Definition has_word (words : list string) (q : string) : Prop :=
  exists word, In word words /\ occurs word q.

(** A stand-in for the Unicode case mapping, for questions that are ASCII:
    [Py.lower] does not consult it on them. *)
Definition no_unicode (s : string) : string := s.

(** The call returned a text that is not empty. *)
Definition nonempty_answer (r : result string) : bool :=
  match r with
  | Ok (String _ _) => true
  | _ => false
  end.

(** ** The lines of the coverage overview *)

(** [sentence] is [text] cut after its first full stop. *)
Definition first_sentence_of (text sentence : string) : Prop :=
  exists body rest,
    sentence = body ++ "." /\ text = sentence ++ rest /\ ~ occurs "." body.

(** The first and the last line of the overview. *)
Definition overview_header : string :=
  "We offer several types of coverage.  Here's a quick overview:".

Definition overview_hint : string :=
  "You can ask about any of these coverage types for more information or"
  ++ " inquire about a specific plan.".

(** [bullet] is the overview line of a table entry: a dash, a space and the
    first sentence of the entry's text. *)
Definition overview_bullet (item : string * string) (bullet : string) : Prop :=
  exists sentence,
    bullet = "- " ++ sentence /\ first_sentence_of (snd item) sentence.

(** ** The lines of a plan description *)

(** The clause that the description of a plan shows for the coverage key
    [cov] with limit [limit]. *)
Inductive limit_clause : string -> Z -> string -> Prop :=
| clause_service (limit : Z) :
    limit_clause "roadside assistance" limit
                 "Roadside assistance: service included"
| clause_per_day (limit : Z) (amount : string) :
    format_currency limit = Ok amount ->
    limit_clause "loss of use" limit
                 ("Loss of use: reimbursed up to " ++ amount ++ " per day")
| clause_ctpl (limit : Z) (amount : string) :
    format_currency limit = Ok amount ->
    limit_clause "ctpl" limit ("CTPL: " ++ amount ++ " limit")
| clause_titled (cov : string) (limit : Z) (amount : string) :
    cov <> "roadside assistance" -> cov <> "loss of use" -> cov <> "ctpl" ->
    format_currency limit = Ok amount ->
    limit_clause cov limit (Py.title cov ++ ": " ++ amount ++ " limit").

(** The description of the Standard plan, line by line. *)
Definition standard_plan_text : string :=
  Py.join Py.LF
    [ "**Standard Plan**";
      description_standard;
      EmptyString;
      "Included coverage: CTPL, Own Damage, Acts Of God.";
      "Annual premium: PHP" ++ Py.NNBSP ++ "7,500.";
      "Coverage limits: CTPL: PHP" ++ Py.NNBSP ++ "100,000 limit; "
      ++ "Own Damage: PHP" ++ Py.NNBSP ++ "400,000 limit; "
      ++ "Acts Of God: PHP" ++ Py.NNBSP ++ "300,000 limit." ].

(** ** Well-formed plans *)

(** Every member of [l1] is a member of [l2]. *)
Definition subset_of (l1 l2 : list string) : bool :=
  forallb (fun k => existsb (String.eqb k) l2) l1.

(** The keys of [COVERAGE_DEFINITIONS]. *)
Definition coverage_keys : list string := map fst COVERAGE_DEFINITIONS.

(** The coverage keys of [p] are defined, and its limits and its coverage
    list have the same keys. *)
Definition plan_well_formed (p : plan) : bool :=
  subset_of (coverage p) coverage_keys
  && subset_of (map fst (limits p)) (coverage p)
  && subset_of (coverage p) (map fst (limits p)).

(** ** Grouped numerals *)

Definition is_comma (c : ascii) : bool := Ascii.eqb c ",".

Definition is_digit (c : ascii) : bool :=
  ((48 <=? nat_of_ascii c) && (nat_of_ascii c <=? 57))%nat.

Definition chars (s : string) : list ascii := list_ascii_of_string s.

(** The text without its commas. *)
Definition strip_commas (s : string) : string :=
  string_of_list_ascii (filter (fun c => negb (is_comma c)) (chars s)).

(** The number that a string of decimal digits denotes. *)
Definition parse_digits (s : string) : option N :=
  option_map N.of_uint (NilEmpty.uint_of_string s).

(** ** Keys and display names *)

(** The key is made of lower-case ASCII letters and spaces. *)
Fixpoint lowercase_key (s : string) : bool :=
  match s with
  | EmptyString => true
  | String c rest => (Py.is_lower c || Ascii.eqb c " ") && lowercase_key rest
  end.

(** ** The canned responses *)

(** Every answer the responder can give, in the order of precedence: the
    coverage definitions, the plan descriptions, the pricing response, the
    overview and the fallback. *)
Definition canned_responses : list (result string) :=
  (map (fun item : string * string => Ok (snd item)) COVERAGE_DEFINITIONS
   ++ map plan_info plan_names
   ++ [pricing_response; overview_response; Ok fallback_response])%list.

(** The position of the first member of [l] that satisfies [p]. *)
Fixpoint find_index {A : Type} (p : A -> bool) (l : list A) : option nat :=
  match l with
  | [] => None
  | x :: rest =>
      if p x then Some 0%nat else option_map S (find_index p rest)
  end.

(** The position in [canned_responses] of the category that a normalized
    question falls in. *)
Definition category_rank (unicode_lower : string -> string) (q : string) : nat :=
  match find_index (definition_matches q) COVERAGE_DEFINITIONS with
  | Some i => i
  | None =>
      match
        find_index
          (fun plan_name => Py.str_in (Py.lower unicode_lower plan_name) q)
          plan_names
      with
      | Some j => (length COVERAGE_DEFINITIONS + j)%nat
      | None =>
          (length COVERAGE_DEFINITIONS + length plan_names +
           if Py.any (fun word => Py.str_in word q) pricing_words then 0
           else if Py.any (fun word => Py.str_in word q) overview_words then 1
           else 2)%nat
      end
  end.

(** No two members of [l] are the same answer. *)
Fixpoint distinct_answers (l : list (result string)) : bool :=
  match l with
  | [] => true
  | r :: rest =>
      negb (existsb (same_answer r) rest) && distinct_answers rest
  end.

(** ** Conversations *)

Definition user_message (text : string) : message :=
  {| role := "user"; content := text |}.

Definition assistant_message (text : string) : message :=
  {| role := "assistant"; content := text |}.

(** The questions submitted in a sequence of runs. *)
Definition submitted (runs : list page_run) : list string :=
  flat_map (fun run =>
              match user_input run with
              | Some (String c rest) => [String c rest]
              | _ => []
              end) runs.

(** [history] is the log of the questions [questions]: for each question
    in turn the user's message and the assistant's message with the answer
    of the responder. *)
Inductive conversation (unicode_lower : string -> string)
  : list string -> list message -> Prop :=
| conversation_nil : conversation unicode_lower [] []
| conversation_turn (question reply : string) (questions : list string)
    (history : list message) :
    answer_question unicode_lower question = Ok reply ->
    conversation unicode_lower questions history ->
    conversation unicode_lower (question :: questions)
      (user_message question :: assistant_message reply :: history).

(** The chat messages that a page shows, in order. *)
Definition shown (calls : list st_call) : list message :=
  flat_map (fun call =>
              match call with
              | chat_message r text => [{| role := r; content := text |}]
              | _ => []
              end) calls.

(** ** Reading an amount back *)

(** [s] without the prefix [p], when it starts with [p]. *)
Fixpoint strip_prefix (p s : string) : option string :=
  match p with
  | EmptyString => Some s
  | String a p' =>
      match s with
      | EmptyString => None
      | String b s' => if Ascii.eqb a b then strip_prefix p' s' else None
      end
  end.

(** The integer that a text written by [format_currency] denotes. *)
Definition parse_amount (text : string) : option Z :=
  match strip_prefix ("PHP" ++ Py.NNBSP) text with
  | None => None
  | Some body =>
      match strip_prefix "-" body with
      | Some digits =>
          option_map (fun n => (- Z.of_N n)%Z)
                     (parse_digits (strip_commas digits))
      | None => option_map Z.of_N (parse_digits (strip_commas body))
      end
  end.

(** ** Coverage named in a plan description *)

(** The display name of [key] occurs in the description of the plan [item]
    exactly when the plan covers [key]. *)
Definition names_its_coverage (item : string * plan) (key : string) : bool :=
  Bool.eqb (answer_contains (plan_info (fst item)) (coverage_title key))
           (existsb (String.eqb key) (coverage (snd item))).

(** * Properties *)

(** ** Substrings *)

Lemma prefix_iff (p s : string) :
  prefix p s = true <-> exists rest, s = p ++ rest.
Proof.
  revert s; induction p as [|a p IH]; intros s.
  - split; [intros _; now exists s | now destruct s].
  - destruct s as [|b s]; simpl.
    + split; [discriminate | intros [rest H]; discriminate].
    + destruct (ascii_dec a b) as [->|Hne].
      * split.
        -- intros H. apply IH in H as [rest ->]. now exists rest.
        -- intros [rest H]. apply IH. exists rest. now inversion H.
      * split; [discriminate|]. intros [rest H]. congruence.
Qed.

Lemma str_in_iff (sub s : string) : Py.str_in sub s = true <-> occurs sub s.
Proof.
  split.
  - induction s as [|c s IH]; cbn [Py.str_in]; rewrite orb_true_iff;
      intros [H|H].
    + apply prefix_iff in H as [rest H]. now exists EmptyString, rest.
    + discriminate.
    + apply prefix_iff in H as [rest H]. now exists EmptyString, rest.
    + destruct (IH H) as (before & after & ->).
      now exists (String c before), after.
  - intros (before & after & ->).
    induction before as [|c before IH].
    + assert (H : prefix sub (sub ++ after) = true)
        by (apply prefix_iff; now exists after).
      change (EmptyString ++ sub ++ after) with (sub ++ after).
      destruct (sub ++ after); cbn [Py.str_in]; rewrite H; reflexivity.
    + change (String c before ++ sub ++ after)
        with (String c (before ++ sub ++ after)).
      cbn [Py.str_in]. rewrite IH. apply orb_true_r.
Qed.

Lemma str_in_false_iff (sub s : string) :
  Py.str_in sub s = false <-> ~ occurs sub s.
Proof.
  rewrite <- str_in_iff. destruct (Py.str_in sub s); split; intros H;
    try reflexivity; try discriminate. now elim H.
Qed.

(** ** Loops that return at the first hit *)

Lemma find_first {A : Type} (p : A -> bool) (l : list A) (x : A) :
  find p l = Some x ->
  exists l1 l2, l = (l1 ++ x :: l2)%list /\ p x = true /\
                (forall y, In y l1 -> p y = false).
Proof.
  induction l as [|a l IH]; simpl; [discriminate|].
  destruct (p a) eqn:Ha.
  - intros [= <-]. exists [], l. repeat split; [assumption | intros y []].
  - intros H. destruct (IH H) as (l1 & l2 & -> & Hx & Hl1).
    exists (a :: l1), l2. repeat split; [assumption|].
    intros y [<-|Hy]; [assumption | now apply Hl1].
Qed.

Lemma find_is_first {A : Type} (p : A -> bool) (l1 l2 : list A) (x : A) :
  p x = true -> (forall y, In y l1 -> p y = false) ->
  find p (l1 ++ x :: l2) = Some x.
Proof.
  intros Hx. induction l1 as [|a l1 IH]; simpl; intros Hl1.
  - now rewrite Hx.
  - rewrite (Hl1 a) by now left. apply IH. intros y Hy. apply Hl1. now right.
Qed.

Lemma find_existsb {A : Type} (p : A -> bool) (l : list A) :
  existsb p l = true -> exists x, find p l = Some x.
Proof.
  induction l as [|a l IH]; simpl; [discriminate|].
  destruct (p a); [now exists a | exact IH].
Qed.

Lemma find_None_existsb {A : Type} (p : A -> bool) (l : list A) :
  existsb p l = false -> find p l = None.
Proof.
  induction l as [|a l IH]; simpl; [reflexivity|].
  destruct (p a); [discriminate | exact IH].
Qed.

Lemma existsb_false_iff {A : Type} (p : A -> bool) (l : list A) :
  existsb p l = false <-> ~ exists x, In x l /\ p x = true.
Proof.
  rewrite <- existsb_exists. destruct (existsb p l); split; intros H;
    try reflexivity; try discriminate. now elim H.
Qed.

(** ** Patterns built from coverage keys *)

(** Replacing the spaces of a key by bars and splitting at the bars gives
    the space-separated fragments of the key. *)
Lemma split_replace (key : string) :
  no_bar key = true ->
  Py.split "|" (Py.replace " " "|" key) = Py.split " " key.
Proof.
  unfold Py.replace.
  induction key as [|c key IH]; simpl; [reflexivity|].
  rewrite andb_true_iff, negb_true_iff. intros [Hc Hkey].
  rewrite (IH Hkey).
  destruct (Ascii.eqb c " ") eqn:Hsp.
  - reflexivity.
  - rewrite Hc. reflexivity.
Qed.

Lemma definition_matches_iff (q key definition : string) :
  no_bar key = true ->
  definition_matches q (key, definition) = true <-> fragment_occurs key q.
Proof.
  intros Hkey. unfold definition_matches, Py.re_search, Py.any, fragment_occurs.
  simpl fst. rewrite (split_replace key Hkey), existsb_exists.
  split; intros (f & Hin & Hf); exists f; split; try assumption;
    now apply str_in_iff.
Qed.

Lemma keys_have_no_bar :
  Forall (fun item => no_bar (fst item) = true) COVERAGE_DEFINITIONS.
Proof. repeat constructor. Qed.

(** The patterns of the table use no regular expression syntax but the
    bar, so [Py.re_search] is [re.search] on them. *)
Lemma patterns_are_plain :
  forallb (fun item => Py.no_re_special (Py.replace " " "|" (fst item)))
          COVERAGE_DEFINITIONS = true.
Proof. vm_compute. reflexivity. Qed.

(** ** Comparing answers *)

Lemma same_answer_iff (r1 r2 : result string) :
  same_answer r1 r2 = true <-> r1 = r2.
Proof.
  destruct r1 as [a|e1], r2 as [b|e2]; simpl;
    try (split; [discriminate | intros [=]]).
  - rewrite String.eqb_eq. split; [now intros -> | now intros [= ->]].
  - destruct e1 as [k1| |], e2 as [k2| |]; simpl;
      try (split; [discriminate | intros [=]]);
      try (split; reflexivity).
    rewrite String.eqb_eq. split; [now intros -> | now intros [= ->]].
Qed.

(** ** The categories of a normalized question *)

Lemma definition_matches_table (q : string) (item : string * string) :
  In item COVERAGE_DEFINITIONS ->
  definition_matches q item = true <-> fragment_occurs (fst item) q.
Proof.
  intros Hin. destruct item as [key definition].
  apply definition_matches_iff.
  exact (proj1 (Forall_forall _ _) keys_have_no_bar _ Hin).
Qed.

Lemma matches_definition_iff (q : string) :
  matches_definition q <->
  existsb (definition_matches q) COVERAGE_DEFINITIONS = true.
Proof.
  rewrite existsb_exists. split.
  - intros (key & definition & Hin & Hf). exists (key, definition).
    split; [assumption|]. now apply definition_matches_table.
  - intros ([key definition] & Hin & Hm). exists key, definition.
    split; [assumption|]. now apply (definition_matches_table q _ Hin).
Qed.

Lemma first_matching_definition_iff (q key definition : string) :
  first_matching_definition q key definition <->
  find (definition_matches q) COVERAGE_DEFINITIONS = Some (key, definition).
Proof.
  split.
  - intros (before & after & Heq & Hf & Hbefore). rewrite Heq.
    assert (Hin : forall item, In item (before ++ [(key, definition)])%list ->
                               In item COVERAGE_DEFINITIONS).
    { intros item Hi. rewrite Heq. apply in_app_iff.
      apply in_app_iff in Hi as [Hi|[<-|[]]]; [now left | right; now left]. }
    apply find_is_first.
    + apply definition_matches_table; [|exact Hf].
      apply Hin, in_app_iff. right. now left.
    + intros [k d] Hy.
      destruct (definition_matches q (k, d)) eqn:Hm; [|reflexivity].
      apply definition_matches_table in Hm.
      * now elim (Hbefore k d Hy).
      * apply Hin, in_app_iff. now left.
  - intros H. destruct (find_first _ _ _ H) as (l1 & l2 & Heq & Hx & Hl1).
    exists l1, l2. split; [assumption|]. split.
    + apply (definition_matches_table q (key, definition)); [|exact Hx].
      rewrite Heq. apply in_app_iff. right. now left.
    + intros k d Hin Hf.
      assert (Hm : definition_matches q (k, d) = true).
      { apply definition_matches_table; [|exact Hf].
        rewrite Heq. apply in_app_iff. now left. }
      rewrite (Hl1 _ Hin) in Hm. discriminate.
Qed.

Lemma names_plan_iff (ul : string -> string) (q : string) :
  names_plan ul q <->
  existsb (fun plan_name => Py.str_in (Py.lower ul plan_name) q) plan_names
  = true.
Proof.
  rewrite existsb_exists.
  split; intros (name & Hin & H); exists name; split; try assumption;
    now apply str_in_iff.
Qed.

Lemma first_named_plan_iff (ul : string -> string) (q name : string) :
  first_named_plan ul q name <->
  find (fun plan_name => Py.str_in (Py.lower ul plan_name) q) plan_names
  = Some name.
Proof.
  split.
  - intros (before & after & Heq & Hocc & Hbefore). rewrite Heq.
    apply find_is_first; [now apply str_in_iff|].
    intros n Hn. apply str_in_false_iff. now apply Hbefore.
  - intros H. destruct (find_first _ _ _ H) as (l1 & l2 & Heq & Hx & Hl1).
    exists l1, l2. split; [assumption|]. split; [now apply str_in_iff|].
    intros n Hn. apply str_in_false_iff. now apply Hl1.
Qed.

Lemma has_word_iff (words : list string) (q : string) :
  has_word words q <-> Py.any (fun word => Py.str_in word q) words = true.
Proof.
  unfold Py.any. rewrite existsb_exists.
  split; intros (word & Hin & H); exists word; split; try assumption;
    now apply str_in_iff.
Qed.

Lemma not_true_iff_false' (b : bool) (P : Prop) :
  (P <-> b = true) -> (~ P <-> b = false).
Proof.
  intros H. rewrite H. destruct b; split; intros H'; try reflexivity;
    try discriminate. now elim H'.
Qed.

(** ** The branches of [answer_question] *)

Section Branches.

Variable unicode_lower : string -> string.
Variable question : string.

Let q := Py.lower unicode_lower question.
Let answer := answer_question unicode_lower question.

Lemma answer_definition (key definition : string) :
  find (definition_matches q) COVERAGE_DEFINITIONS = Some (key, definition) ->
  answer = Ok definition.
Proof.
  intros H. unfold answer, answer_question. fold q. now rewrite H.
Qed.

Lemma answer_plan (name : string) :
  existsb (definition_matches q) COVERAGE_DEFINITIONS = false ->
  find (fun plan_name => Py.str_in (Py.lower unicode_lower plan_name) q)
       plan_names = Some name ->
  answer = plan_info name.
Proof.
  intros Hd Hp. unfold answer, answer_question. fold q.
  rewrite (find_None_existsb _ _ Hd). fold plan_names. now rewrite Hp.
Qed.

Lemma answer_no_plan :
  existsb (definition_matches q) COVERAGE_DEFINITIONS = false ->
  existsb (fun plan_name => Py.str_in (Py.lower unicode_lower plan_name) q)
          plan_names = false ->
  answer =
  if Py.any (fun word => Py.str_in word q) pricing_words then pricing_response
  else if Py.any (fun word => Py.str_in word q) overview_words
       then overview_response
       else Ok fallback_response.
Proof.
  intros Hd Hp. unfold answer, answer_question. fold q.
  rewrite (find_None_existsb _ _ Hd). fold plan_names.
  now rewrite (find_None_existsb _ _ Hp).
Qed.

End Branches.

(** No coverage definition is the description of a plan. *)
Lemma definitions_differ_from_plans :
  forallb (fun item : string * string =>
             forallb (fun name =>
                        negb (same_answer (Ok (snd item)) (plan_info name)))
                     plan_names)
          COVERAGE_DEFINITIONS = true.
Proof. vm_compute. reflexivity. Qed.

(** ** Precedence of the categories *)

(** C1.  [answer_question] tries the categories in the order coverage
    definition, plan name, pricing words, coverage overview, fallback, and
    answers with the first that applies.  In particular a question that
    matches a coverage definition gets the first matching definition whether
    or not it names a plan, and that answer is not the description of any
    plan. *)
Theorem answer_question_precedence
    (unicode_lower : string -> string) (question : string) :
  let q := Py.lower unicode_lower question in
  let answer := answer_question unicode_lower question in
  (matches_definition q ->
     (exists key definition,
        first_matching_definition q key definition /\ answer = Ok definition)
     /\ (forall name, In name plan_names -> answer <> plan_info name))
  /\ (~ matches_definition q -> names_plan unicode_lower q ->
      exists name,
        first_named_plan unicode_lower q name /\ answer = plan_info name)
  /\ (~ matches_definition q -> ~ names_plan unicode_lower q ->
      has_word pricing_words q -> answer = pricing_response)
  /\ (~ matches_definition q -> ~ names_plan unicode_lower q ->
      ~ has_word pricing_words q -> has_word overview_words q ->
      answer = overview_response)
  /\ (~ matches_definition q -> ~ names_plan unicode_lower q ->
      ~ has_word pricing_words q -> ~ has_word overview_words q ->
      answer = Ok fallback_response)
  /\ (let example := "does the Basic plan cover acts of god" in
      names_plan unicode_lower (Py.lower unicode_lower example) /\
      first_matching_definition (Py.lower unicode_lower example)
        "acts of god" definition_acts_of_god /\
      answer_question unicode_lower example = Ok definition_acts_of_god).
Proof.
  intros q answer.
  pose proof (not_true_iff_false' _ _ (matches_definition_iff q)) as Hnd.
  pose proof (not_true_iff_false' _ _ (names_plan_iff unicode_lower q)) as Hnp.
  pose proof (not_true_iff_false' _ _ (has_word_iff pricing_words q)) as Hnw.
  pose proof (not_true_iff_false' _ _ (has_word_iff overview_words q)) as Hno.
  split; [intros H; split | split; [|split; [|split; [|split]]]].
  - apply matches_definition_iff in H.
    destruct (find_existsb _ _ H) as [[key definition] Hfind].
    exists key, definition. split.
    + exact (proj2 (first_matching_definition_iff _ _ _) Hfind).
    + exact (answer_definition unicode_lower question _ _ Hfind).
  - intros name Hname Heq.
    apply matches_definition_iff in H.
    destruct (find_existsb _ _ H) as [[key definition] Hfind].
    pose proof (answer_definition unicode_lower question _ _ Hfind) as Ha.
    fold answer in Ha. rewrite Ha in Heq.
    apply find_some in Hfind as [Hin _].
    pose proof definitions_differ_from_plans as Hall.
    rewrite forallb_forall in Hall. specialize (Hall _ Hin).
    rewrite forallb_forall in Hall. specialize (Hall _ Hname).
    simpl snd in Hall. apply same_answer_iff in Heq.
    rewrite Heq in Hall. discriminate.
  - intros Hd Hp. apply Hnd in Hd. apply names_plan_iff in Hp.
    destruct (find_existsb _ _ Hp) as [name Hfind].
    exists name. split.
    + exact (proj2 (first_named_plan_iff _ _ _) Hfind).
    + exact (answer_plan unicode_lower question _ Hd Hfind).
  - intros Hd Hp Hw. apply Hnd in Hd. apply Hnp in Hp. apply has_word_iff in Hw.
    unfold answer. rewrite (answer_no_plan _ _ Hd Hp). fold q. now rewrite Hw.
  - intros Hd Hp Hw Ho. apply Hnd in Hd. apply Hnp in Hp. apply Hnw in Hw.
    apply has_word_iff in Ho.
    unfold answer. rewrite (answer_no_plan _ _ Hd Hp). fold q.
    now rewrite Hw, Ho.
  - intros Hd Hp Hw Ho. apply Hnd in Hd. apply Hnp in Hp. apply Hnw in Hw.
    apply Hno in Ho.
    unfold answer. rewrite (answer_no_plan _ _ Hd Hp). fold q.
    now rewrite Hw, Ho.
  - cbv zeta. split; [|split].
    + apply names_plan_iff. vm_compute. reflexivity.
    + apply first_matching_definition_iff. vm_compute. reflexivity.
    + vm_compute. reflexivity.
Qed.

(** ** Coverage definitions *)

Lemma fragment_occurs_iff (key q : string) :
  fragment_occurs key q <->
  existsb (fun fragment => Py.str_in fragment q) (Py.split " " key) = true.
Proof.
  unfold fragment_occurs. rewrite existsb_exists.
  split; intros (f & Hin & H); exists f; split; try assumption;
    now apply str_in_iff.
Qed.

(** The key ["acts of god"] matches a question exactly when ["acts"],
    ["of"] or ["god"] occurs in it. *)
Lemma acts_of_god_fragments (q : string) :
  fragment_occurs "acts of god" q <->
  occurs "acts" q \/ occurs "of" q \/ occurs "god" q.
Proof.
  unfold fragment_occurs. simpl. split.
  - intros (f & [<-|[<-|[<-|[]]]] & H); auto.
  - intros [H|[H|H]]; eauto 6.
Qed.

(** C3.  When the entry at position [i] of the coverage table has a
    space-separated fragment of its key occurring in the lower-cased
    question, and no entry at an earlier position has one, the answer is
    the definition text of entry [i]: no later entry and no later category
    is consulted. *)
Theorem first_fragment_match_wins
    (unicode_lower : string -> string) (question : string)
    (i : nat) (key definition : string) :
  let q := Py.lower unicode_lower question in
  nth_error COVERAGE_DEFINITIONS i = Some (key, definition) ->
  fragment_occurs key q ->
  (forall j k d, (j < i)%nat ->
                 nth_error COVERAGE_DEFINITIONS j = Some (k, d) ->
                 ~ fragment_occurs k q) ->
  answer_question unicode_lower question = Ok definition.
Proof.
  intros q Hi Hkey Hearlier.
  apply answer_definition with (key := key).
  apply first_matching_definition_iff.
  destruct (nth_error_split _ _ Hi) as (before & after & Heq & Hlen).
  exists before, after. split; [assumption|]. split; [assumption|].
  intros k d Hin.
  destruct (In_nth_error _ _ Hin) as [j Hj].
  assert (Hlt : (j < i)%nat).
  { rewrite <- Hlen. apply nth_error_Some. rewrite Hj. discriminate. }
  apply (Hearlier j k d Hlt).
  rewrite Heq, nth_error_app1 by (now rewrite Hlen). exact Hj.
Qed.

Lemma first_fragment_match_wins_witness :
  answer_question no_unicode "does the Basic plan cover acts of god"
  = Ok definition_acts_of_god.
Proof.
  apply (first_fragment_match_wins no_unicode
           "does the Basic plan cover acts of god" 2 "acts of god").
  - reflexivity.
  - apply fragment_occurs_iff. vm_compute. reflexivity.
  - intros j k d Hj Hn.
    apply (not_true_iff_false' _ _ (fragment_occurs_iff _ _)).
    destruct j as [|[|j]]; [| |lia]; injection Hn as <- _; vm_compute;
      reflexivity.
Defined.

(** ** Totality *)

Lemma nonempty_answer_spec (r : result string) :
  nonempty_answer r = true ->
  exists text, r = Ok text /\ text <> EmptyString.
Proof.
  destruct r as [[|c text]|e]; simpl; try discriminate.
  intros _. exists (String c text). split; [reflexivity | discriminate].
Qed.

Lemma definitions_nonempty :
  forallb (fun item : string * string => nonempty_answer (Ok (snd item)))
          COVERAGE_DEFINITIONS = true.
Proof. vm_compute. reflexivity. Qed.

Lemma plan_info_nonempty :
  forallb (fun name => nonempty_answer (plan_info name)) plan_names = true.
Proof. vm_compute. reflexivity. Qed.

Lemma fixed_responses_nonempty :
  nonempty_answer pricing_response = true /\
  nonempty_answer overview_response = true /\
  nonempty_answer (Ok fallback_response) = true.
Proof. repeat split; vm_compute; reflexivity. Qed.

(** C2.  [answer_question] raises on no question and returns a text that is
    not empty on every question; on the empty question no category applies
    and the answer is the fallback response. *)
Theorem answer_question_total (unicode_lower : string -> string) :
  (forall question,
     exists text,
       answer_question unicode_lower question = Ok text /\
       text <> EmptyString)
  /\ (~ matches_definition (Py.lower unicode_lower EmptyString)
      /\ ~ names_plan unicode_lower (Py.lower unicode_lower EmptyString)
      /\ ~ has_word pricing_words (Py.lower unicode_lower EmptyString)
      /\ ~ has_word overview_words (Py.lower unicode_lower EmptyString))
  /\ answer_question unicode_lower EmptyString = Ok fallback_response.
Proof.
  split; [|split].
  - intros question. apply nonempty_answer_spec.
    unfold answer_question.
    set (q := Py.lower unicode_lower question).
    destruct (find (definition_matches q) COVERAGE_DEFINITIONS)
      as [[key definition]|] eqn:Hd.
    + apply find_some in Hd as [Hin _].
      pose proof definitions_nonempty as Hall.
      rewrite forallb_forall in Hall. exact (Hall _ Hin).
    + destruct (find _ (map fst POLICY_PLANS)) as [name|] eqn:Hp.
      * apply find_some in Hp as [Hin _].
        pose proof plan_info_nonempty as Hall.
        rewrite forallb_forall in Hall. exact (Hall _ Hin).
      * destruct fixed_responses_nonempty as (Hprice & Hoverview & Hfallback).
        destruct (Py.any _ pricing_words); [exact Hprice|].
        destruct (Py.any _ overview_words); [exact Hoverview|].
        exact Hfallback.
  - repeat split.
    + apply (not_true_iff_false' _ _ (matches_definition_iff _)).
      vm_compute. reflexivity.
    + apply (not_true_iff_false' _ _ (names_plan_iff _ _)).
      vm_compute. reflexivity.
    + apply (not_true_iff_false' _ _ (has_word_iff _ _)).
      vm_compute. reflexivity.
    + apply (not_true_iff_false' _ _ (has_word_iff _ _)).
      vm_compute. reflexivity.
  - vm_compute. reflexivity.
Qed.

(** ** The coverage overview *)

Lemma mapM_Forall2 {A B : Type} (f : A -> result B) (R : A -> B -> Prop)
    (l : list A) :
  (forall x, In x l -> exists y, f x = Ok y /\ R x y) ->
  exists ys, mapM f l = Ok ys /\ Forall2 R l ys.
Proof.
  induction l as [|x l IH]; intros H.
  - exists []. split; [reflexivity | constructor].
  - destruct (H x (or_introl eq_refl)) as (y & Hy & HR).
    destruct IH as (ys & Hys & HF); [intros z Hz; apply H; now right|].
    exists (y :: ys). split; [|now constructor].
    simpl. rewrite Hy. simpl. rewrite Hys. reflexivity.
Qed.

(** Up to its first separator, a string that contains the separator is the
    first piece of its split. *)
Lemma split_first (sep : ascii) (s : string) :
  Py.str_in (String sep EmptyString) s = true ->
  exists first others rest,
    Py.split sep s = first :: others /\
    Py.str_in (String sep EmptyString) first = false /\
    s = first ++ String sep rest.
Proof.
  induction s as [|c s IH]; [discriminate|].
  cbn [Py.str_in Py.split]. simpl prefix.
  destruct (ascii_dec sep c) as [->|Hne].
  - intros _. rewrite Ascii.eqb_refl.
    exists EmptyString, (Py.split c s), s. repeat split.
  - assert (Hc : Ascii.eqb c sep = false)
      by (apply Ascii.eqb_neq; congruence).
    rewrite Hc. simpl orb. intros H.
    destruct (IH H) as (first & others & rest & Hsplit & Hfirst & ->).
    rewrite Hsplit. exists (String c first), others, rest.
    repeat split. cbn [Py.str_in]. simpl prefix.
    destruct (ascii_dec sep c); [contradiction|]. exact Hfirst.
Qed.

Lemma append_assoc (a b c : string) : (a ++ b) ++ c = a ++ b ++ c.
Proof. induction a as [|x a IH]; simpl; [reflexivity | now rewrite IH]. Qed.

Lemma summary_first_sentence (definition : string) :
  Py.str_in "." definition = true ->
  exists sentence,
    summary definition = Ok sentence /\ first_sentence_of definition sentence.
Proof.
  intros H.
  destruct (split_first "." definition H)
    as (first & others & rest & Hsplit & Hfirst & Heq).
  exists (first ++ "."). split.
  - unfold summary. rewrite Hsplit. reflexivity.
  - exists first, rest. split; [reflexivity|]. split.
    + rewrite append_assoc. exact Heq.
    + now apply str_in_false_iff.
Qed.

Lemma definitions_have_full_stop :
  forallb (fun item : string * string => Py.str_in "." (snd item))
          COVERAGE_DEFINITIONS = true.
Proof. vm_compute. reflexivity. Qed.

Lemma concat_cons2 (sep x y : string) (l : list string) :
  String.concat sep (x :: y :: l) = x ++ sep ++ String.concat sep (y :: l).
Proof. reflexivity. Qed.

(** A last item that starts with a line feed reads as an empty line
    followed by the rest of the item. *)
Lemma join_blank_line (l : list string) (x last : string) :
  Py.join Py.LF (append_item (x :: l) (Py.LF ++ last)) =
  Py.join Py.LF (x :: app l [EmptyString; last]).
Proof.
  unfold Py.join, append_item. cbn [app]. revert x.
  induction l as [|y l IH]; intros x.
  - reflexivity.
  - cbn [app]. rewrite !concat_cons2. now rewrite IH.
Qed.

Lemma overview_response_lines :
  exists bullets,
    Forall2 overview_bullet COVERAGE_DEFINITIONS bullets /\
    overview_response =
    Ok (Py.join Py.LF
          (overview_header :: bullets ++ [EmptyString; overview_hint])%list).
Proof.
  destruct (mapM_Forall2
              (fun item : string * string =>
                 s <- summary (snd item) ;; Ok ("- " ++ s))
              overview_bullet COVERAGE_DEFINITIONS) as (bullets & Hmap & HF).
  { intros item Hin.
    pose proof definitions_have_full_stop as Hall.
    rewrite forallb_forall in Hall.
    destruct (summary_first_sentence _ (Hall _ Hin)) as (s & Hs & Hfirst).
    exists ("- " ++ s). split; [now rewrite Hs|]. now exists s. }
  exists bullets. split; [assumption|].
  unfold overview_response. rewrite Hmap. cbn [bind app].
  now rewrite join_blank_line.
Qed.

(** C4, as the code has it.  A question whose lower-cased form matches no
    coverage definition, names no plan and holds no pricing word, and that
    holds one of the words coverage, covered, benefits, gets the overview:
    a header line, one bullet per coverage definition in table order, each
    the definition's text cut after its first full stop, an empty line and
    a hint line. *)
Theorem coverage_overview
    (unicode_lower : string -> string) (question : string) :
  let q := Py.lower unicode_lower question in
  ~ matches_definition q ->
  ~ names_plan unicode_lower q ->
  ~ has_word pricing_words q ->
  has_word overview_words q ->
  exists bullets,
    Forall2 overview_bullet COVERAGE_DEFINITIONS bullets /\
    answer_question unicode_lower question =
    Ok (Py.join Py.LF
          (overview_header :: bullets ++ [EmptyString; overview_hint])%list).
Proof.
  intros q Hd Hp Hw Ho.
  apply (not_true_iff_false' _ _ (matches_definition_iff q)) in Hd.
  apply (not_true_iff_false' _ _ (names_plan_iff unicode_lower q)) in Hp.
  apply (not_true_iff_false' _ _ (has_word_iff pricing_words q)) in Hw.
  apply has_word_iff in Ho.
  rewrite (answer_no_plan _ _ Hd Hp). fold q. rewrite Hw, Ho.
  exact overview_response_lines.
Qed.

Lemma coverage_overview_witness :
  exists bullets,
    Forall2 overview_bullet COVERAGE_DEFINITIONS bullets /\
    answer_question no_unicode "what is covered" =
    Ok (Py.join Py.LF
          (overview_header :: bullets ++ [EmptyString; overview_hint])%list).
Proof.
  apply (coverage_overview no_unicode "what is covered").
  - apply (not_true_iff_false' _ _ (matches_definition_iff _)).
    vm_compute. reflexivity.
  - apply (not_true_iff_false' _ _ (names_plan_iff _ _)).
    vm_compute. reflexivity.
  - apply (not_true_iff_false' _ _ (has_word_iff _ _)).
    vm_compute. reflexivity.
  - apply has_word_iff. vm_compute. reflexivity.
Defined.

(** C4, as stated, fails: in ["what coverage do you offer"] the word
    ["offer"] holds the fragment ["of"] of the key ["acts of god"], so the
    answer is that definition and not the overview. *)
Lemma coverage_overview_counterexample :
  answer_question no_unicode "what coverage do you offer"
  = Ok definition_acts_of_god
  /\ same_answer (answer_question no_unicode "what coverage do you offer")
                 overview_response = false
  /\ Py.str_in "of" "offer" = true.
Proof. repeat split; vm_compute; reflexivity. Qed.

(** ** The limit clauses of a plan description *)

Lemma limit_line_spec (item : string * Z) (clause : string) :
  limit_line item = Ok clause -> limit_clause (fst item) (snd item) clause.
Proof.
  destruct item as [cov limit]. unfold limit_line. simpl fst. simpl snd.
  destruct (String.eqb cov "roadside assistance") eqn:Hroad.
  - apply String.eqb_eq in Hroad as ->. intros [= <-]. constructor.
  - destruct (String.eqb cov "loss of use") eqn:Hloss.
    + apply String.eqb_eq in Hloss as ->.
      destruct (format_currency limit) as [amount|e] eqn:Hf; simpl;
        [|discriminate].
      intros [= <-]. now constructor.
    + apply String.eqb_neq in Hroad, Hloss.
      destruct (format_currency limit) as [amount|e] eqn:Hf; simpl;
        [|discriminate].
      intros [= <-]. unfold coverage_title.
      destruct (String.eqb cov "ctpl") eqn:Hctpl; simpl negb; cbv iota.
      * apply String.eqb_eq in Hctpl as ->. now constructor.
      * apply String.eqb_neq in Hctpl. now constructor.
Qed.

Lemma mapM_Ok_Forall2 {A B : Type} (f : A -> result B) (R : A -> B -> Prop)
    (l : list A) (ys : list B) :
  (forall x y, f x = Ok y -> R x y) ->
  mapM f l = Ok ys -> Forall2 R l ys.
Proof.
  intros HR. revert ys. induction l as [|x l IH]; simpl; intros ys.
  - intros [= <-]. constructor.
  - destruct (f x) as [y|e] eqn:Hy; simpl; [|discriminate].
    destruct (mapM f l) as [ys'|e] eqn:Hys; simpl; [|discriminate].
    intros [= <-]. constructor; [now apply HR | now apply IH].
Qed.

Lemma Ok_inj {A : Type} (a b : A) : Ok a = Ok b -> a = b.
Proof. now intros [= ->]. Qed.

(** The last line of a plan description holds the limit clauses. *)
Lemma plan_info_last_line (name text : string) (p : plan) :
  getitem POLICY_PLANS name = Ok p ->
  plan_info name = Ok text ->
  exists head clauses,
    mapM limit_line (limits p) = Ok clauses /\
    text = Py.join Py.LF
             (app head ["Coverage limits: " ++ Py.join "; " clauses ++ "."]).
Proof.
  intros Hget. unfold plan_info. rewrite Hget. cbn [bind].
  destruct (format_currency (premium p)) as [amount|e]; cbn [bind];
    [|discriminate].
  destruct (mapM limit_line (limits p)) as [clauses|e]; cbn [bind];
    [|discriminate].
  unfold append_item. intros H. apply Ok_inj in H. rewrite <- H.
  eexists. exists clauses. split; reflexivity.
Qed.

(** C5, as the code has it.  The description of every plan of the table
    ends with the line ["Coverage limits: "], the plan's limit clauses in
    the order of its limits, joined with ["; "], and a full stop.  The
    clause of ["roadside assistance"] is the fixed text
    ["Roadside assistance: service included"]; the clause of
    ["loss of use"] is ["Loss of use: reimbursed up to <amount> per day"];
    the clause of ["ctpl"] is ["CTPL: <amount> limit"]; the clause of any
    other key is the key in title case, then [": <amount> limit"]. *)
Theorem limit_clauses_rendered (name : string) (p : plan) :
  In (name, p) POLICY_PLANS ->
  exists head clauses,
    Forall2 (fun item clause => limit_clause (fst item) (snd item) clause)
            (limits p) clauses /\
    plan_info name =
    Ok (Py.join Py.LF
          (app head ["Coverage limits: " ++ Py.join "; " clauses ++ "."])).
Proof.
  intros Hin.
  assert (Hget : getitem POLICY_PLANS name = Ok p).
  { destruct Hin as [[= <- <-]|[[= <- <-]|[[= <- <-]|[]]]]; reflexivity. }
  assert (Hname : In name plan_names).
  { change name with (fst (name, p)). now apply in_map. }
  pose proof plan_info_nonempty as Hall.
  rewrite forallb_forall in Hall.
  destruct (nonempty_answer_spec _ (Hall _ Hname)) as (text & Htext & _).
  destruct (plan_info_last_line _ _ _ Hget Htext)
    as (head & clauses & Hmap & ->).
  exists head, clauses. split; [|exact Htext].
  exact (mapM_Ok_Forall2 _ _ _ _ limit_line_spec Hmap).
Qed.

Lemma limit_clauses_rendered_witness :
  exists head clauses,
    Forall2 (fun item clause => limit_clause (fst item) (snd item) clause)
            (limits plan_premium) clauses /\
    plan_info "Premium" =
    Ok (Py.join Py.LF
          (app head ["Coverage limits: " ++ Py.join "; " clauses ++ "."])).
Proof.
  apply (limit_clauses_rendered "Premium" plan_premium).
  simpl. right. right. left. reflexivity.
Defined.

(** C5, as stated, fails: the labels of the service and per-day clauses are
    fixed texts in sentence case, not the keys in title case. *)
Lemma limit_clauses_counterexample :
  limit_line ("roadside assistance", 0%Z)
  = Ok "Roadside assistance: service included"
  /\ coverage_title "roadside assistance" = "Roadside Assistance"
  /\ answer_contains (plan_info "Premium")
       (coverage_title "roadside assistance" ++ ": service included") = false
  /\ limit_line ("loss of use", 2500%Z)
     = Ok ("Loss of use: reimbursed up to PHP" ++ Py.NNBSP ++ "2,500 per day")
  /\ coverage_title "loss of use" = "Loss Of Use"
  /\ answer_contains (plan_info "Premium")
       (coverage_title "loss of use" ++ ": reimbursed up to") = false.
Proof. repeat split; vm_compute; reflexivity. Qed.

(** ** Plan lookup *)

(** C6, as the code has it.  The answer to
    ["tell me about the Standard plan"] is the description of the Standard
    plan.  It contains ["Standard Plan"], the premium written ["PHP"],
    U+202F NARROW NO-BREAK SPACE, ["7,500"], and the coverage names
    ["CTPL"], ["Own Damage"] and ["Acts Of God"]; it does not contain
    ["Personal Accident"]. *)
Theorem standard_plan_lookup (unicode_lower : string -> string) :
  answer_question unicode_lower "tell me about the Standard plan"
  = plan_info "Standard"
  /\ plan_info "Standard" = Ok standard_plan_text
  /\ occurs "Standard Plan" standard_plan_text
  /\ occurs ("PHP" ++ Py.NNBSP ++ "7,500") standard_plan_text
  /\ occurs "CTPL" standard_plan_text
  /\ occurs "Own Damage" standard_plan_text
  /\ occurs "Acts Of God" standard_plan_text
  /\ ~ occurs "Personal Accident" standard_plan_text.
Proof.
  repeat split;
    try (apply str_in_iff); try (apply str_in_false_iff);
    vm_compute; reflexivity.
Qed.

(** C6, as stated, fails: the premium is not written with an ordinary
    space after ["PHP"]. *)
Lemma standard_plan_lookup_counterexample :
  answer_contains
    (answer_question no_unicode "tell me about the Standard plan")
    "PHP 7,500" = false
  /\ answer_contains
       (answer_question no_unicode "tell me about the Standard plan")
       ("PHP" ++ Py.NNBSP ++ "7,500") = true.
Proof. split; vm_compute; reflexivity. Qed.

(** ** Pricing *)

(** C7, as the code has it.  The answer to ["what are your rates"] is a
    header line, the three plan lines in table order, each with the
    premium written ["PHP"], U+202F NARROW NO-BREAK SPACE and the grouped
    digits, an empty line and a hint line. *)
Theorem pricing_rates (unicode_lower : string -> string) :
  answer_question unicode_lower "what are your rates"
  = Ok (Py.join Py.LF
          [ "Here are the annual premiums for our available plans:";
            "- **Basic Plan**: PHP" ++ Py.NNBSP ++ "1,800";
            "- **Standard Plan**: PHP" ++ Py.NNBSP ++ "7,500";
            "- **Premium Plan**: PHP" ++ Py.NNBSP ++ "14,000";
            EmptyString;
            "Ask about a specific plan to see what it covers." ]).
Proof. vm_compute. reflexivity. Qed.

(** C7, as stated, fails: no line of the answer reads
    ["- **Basic Plan**: PHP 1,800"] with an ordinary space. *)
Lemma pricing_rates_counterexample :
  answer_contains (answer_question no_unicode "what are your rates")
                  "- **Basic Plan**: PHP 1,800" = false
  /\ answer_contains (answer_question no_unicode "what are your rates")
                     "- **Standard Plan**: PHP 7,500" = false
  /\ answer_contains (answer_question no_unicode "what are your rates")
                     "- **Premium Plan**: PHP 14,000" = false.
Proof. repeat split; vm_compute; reflexivity. Qed.

(** ** The knowledge base *)

Lemma subset_of_spec (l1 l2 : list string) :
  subset_of l1 l2 = true -> forall k, In k l1 -> In k l2.
Proof.
  unfold subset_of. rewrite forallb_forall. intros H k Hk.
  specialize (H k Hk). apply existsb_exists in H as (k' & Hin & Heq).
  apply String.eqb_eq in Heq. now subst.
Qed.

(** C9.  For every plan of the table, every key of its coverage list is a
    key of the coverage definitions, every key of its limits is in its
    coverage list, and every key of its coverage list has a limit. *)
Theorem knowledge_base_invariant :
  Forall (fun item : string * plan =>
            let p := snd item in
            (forall k, In k (coverage p) -> In k coverage_keys) /\
            (forall k, In k (map fst (limits p)) -> In k (coverage p)) /\
            (forall k, In k (coverage p) -> In k (map fst (limits p))))
         POLICY_PLANS.
Proof.
  assert (H : forallb (fun item : string * plan => plan_well_formed (snd item))
                      POLICY_PLANS = true) by (vm_compute; reflexivity).
  rewrite forallb_forall in H. apply Forall_forall. intros item Hin.
  specialize (H item Hin). unfold plan_well_formed in H.
  apply andb_true_iff in H as [H H3]. apply andb_true_iff in H as [H1 H2].
  cbv zeta. repeat split; now apply subset_of_spec.
Qed.

(** ** The word premium *)

Lemma plans_differ_from_pricing :
  forallb (fun name => negb (same_answer (plan_info name) pricing_response))
          plan_names = true.
Proof. vm_compute. reflexivity. Qed.

(** C10, as the code has it.  A question whose lower-cased form holds
    ["premium"] and matches no coverage definition is answered with the
    description of the first plan of the table whose lower-cased name it
    holds, never with the pricing response; that plan is Premium when the
    question holds neither ["basic"] nor ["standard"]. *)
Theorem premium_is_a_plan_name
    (unicode_lower : string -> string) (question : string) :
  let q := Py.lower unicode_lower question in
  let answer := answer_question unicode_lower question in
  occurs "premium" q ->
  ~ matches_definition q ->
  (exists name,
     first_named_plan unicode_lower q name /\ answer = plan_info name)
  /\ same_answer answer pricing_response = false
  /\ (~ occurs "basic" q -> ~ occurs "standard" q ->
      answer = plan_info "Premium").
Proof.
  intros q answer Hpremium Hd.
  apply (not_true_iff_false' _ _ (matches_definition_iff q)) in Hd.
  assert (Hp : names_plan unicode_lower q).
  { exists "Premium". split; [right; right; now left | exact Hpremium]. }
  apply names_plan_iff in Hp.
  destruct (find_existsb _ _ Hp) as [name Hfind].
  pose proof (answer_plan unicode_lower question _ Hd Hfind) as Ha.
  fold answer in Ha.
  split; [|split].
  - exists name. split; [|exact Ha].
    exact (proj2 (first_named_plan_iff _ _ _) Hfind).
  - rewrite Ha. apply find_some in Hfind as [Hin _].
    pose proof plans_differ_from_pricing as Hall.
    rewrite forallb_forall in Hall. specialize (Hall _ Hin).
    now apply negb_true_iff in Hall.
  - intros Hbasic Hstandard.
    apply (answer_plan unicode_lower question _ Hd).
    apply first_named_plan_iff.
    exists ["Basic"; "Standard"], []. split; [reflexivity|].
    split; [exact Hpremium|].
    intros n [<-|[<-|[]]]; assumption.
Qed.

Lemma premium_is_a_plan_name_witness :
  (exists name,
     first_named_plan no_unicode
       (Py.lower no_unicode "how much is premium") name /\
     answer_question no_unicode "how much is premium" = plan_info name)
  /\ same_answer (answer_question no_unicode "how much is premium")
                 pricing_response = false
  /\ (~ occurs "basic" (Py.lower no_unicode "how much is premium") ->
      ~ occurs "standard" (Py.lower no_unicode "how much is premium") ->
      answer_question no_unicode "how much is premium"
      = plan_info "Premium").
Proof.
  apply (premium_is_a_plan_name no_unicode "how much is premium").
  - apply str_in_iff. vm_compute. reflexivity.
  - apply (not_true_iff_false' _ _ (matches_definition_iff _)).
    vm_compute. reflexivity.
Defined.

(** C10, as stated, fails: ["is premium better than basic"] holds
    ["premium"] and matches no coverage definition, and the answer is the
    description of the Basic plan, which comes first in the table. *)
Lemma premium_is_a_plan_name_counterexample :
  Py.str_in "premium" (Py.lower no_unicode "is premium better than basic")
  = true
  /\ existsb
       (definition_matches
          (Py.lower no_unicode "is premium better than basic"))
       COVERAGE_DEFINITIONS = false
  /\ answer_question no_unicode "is premium better than basic"
     = plan_info "Basic"
  /\ same_answer (answer_question no_unicode "is premium better than basic")
                 (plan_info "Premium") = false.
Proof. repeat split; vm_compute; reflexivity. Qed.

(** ** Currency *)

Lemma parse_digits_digits (n : N) : parse_digits (Py.digits n) = Some n.
Proof.
  unfold parse_digits, Py.digits. rewrite NilEmpty.usu. simpl.
  now rewrite DecimalN.Unsigned.of_to.
Qed.

Lemma digits_are_digits (n : N) : forallb is_digit (chars (Py.digits n)) = true.
Proof.
  unfold Py.digits. generalize (N.to_uint n). intros d.
  induction d; simpl; auto.
Qed.

Lemma digits_nonempty (n : N) : Py.digits n <> EmptyString.
Proof.
  intros H. pose proof (parse_digits_digits n) as Hp. rewrite H in Hp.
  injection Hp as <-. discriminate.
Qed.

Lemma digit_is_no_comma (c : ascii) : is_digit c = true -> is_comma c = false.
Proof.
  intros Hd. unfold is_comma. destruct (Ascii.eqb c ",") eqn:Hc; [|reflexivity].
  apply Ascii.eqb_eq in Hc. subst. discriminate.
Qed.

Lemma group3_rev_short (ds : list ascii) :
  (length ds <= 3)%nat -> Py.group3_rev ds = ds.
Proof.
  destruct ds as [|a [|b [|c [|d r]]]]; simpl; try reflexivity. lia.
Qed.

Lemma group3_rev_long (a b c d : ascii) (r : list ascii) :
  Py.group3_rev (a :: b :: c :: d :: r)
  = a :: b :: c :: ","%char :: Py.group3_rev (d :: r).
Proof. reflexivity. Qed.

(** Induction that follows the recursion of [Py.group3_rev]. *)
Lemma group3_induction (P : list ascii -> Prop) :
  (forall ds, (length ds <= 3)%nat -> P ds) ->
  (forall a b c d r, P (d :: r) -> P (a :: b :: c :: d :: r)) ->
  forall ds, P ds.
Proof.
  intros Hshort Hlong ds.
  assert (H : forall n l, (length l <= n)%nat -> P l).
  { induction n as [|n IH]; intros l Hl.
    - apply Hshort. lia.
    - destruct l as [|a [|b [|c [|d r]]]]; try (apply Hshort; simpl; lia).
      apply Hlong, IH. simpl in *. lia. }
  now apply (H (length ds)).
Qed.

Section Grouping.

(** A class of characters that are not commas, such as the digits. *)
Variable no_comma : ascii -> bool.
Hypothesis no_comma_spec : forall c, no_comma c = true -> is_comma c = false.

Lemma group3_rev_strip (ds : list ascii) :
  forallb no_comma ds = true ->
  filter (fun c => negb (is_comma c)) (Py.group3_rev ds) = ds.
Proof.
  induction ds as [ds Hlen|a b c d r IH] using group3_induction; intros H.
  - rewrite group3_rev_short by assumption.
    apply forallb_filter_id. rewrite forallb_forall in *.
    intros x Hx. now rewrite (no_comma_spec _ (H x Hx)).
  - rewrite group3_rev_long. simpl in H.
    repeat (apply andb_true_iff in H as [?Hc H]).
    cbn [filter]. rewrite !no_comma_spec by assumption.
    change (is_comma ",") with true. cbn [negb].
    rewrite IH; [reflexivity|]. simpl. now rewrite Hc2, H.
Qed.

Lemma group3_rev_positions (ds : list ascii) :
  forallb no_comma ds = true ->
  forall i, (i < length (Py.group3_rev ds))%nat ->
            nth i (Py.group3_rev ds) "0"%char = ","%char <-> (i mod 4 = 3)%nat.
Proof.
  induction ds as [ds Hlen|a b c d r IH] using group3_induction; intros H i Hi.
  - rewrite group3_rev_short in * by assumption.
    rewrite forallb_forall in H.
    assert (Hnc : is_comma (nth i ds "0"%char) = false)
      by (apply no_comma_spec, H, nth_In; assumption).
    rewrite Nat.mod_small by lia. split.
    + intros Heq. rewrite Heq in Hnc. discriminate.
    + lia.
  - rewrite group3_rev_long in *. simpl in H.
    repeat (apply andb_true_iff in H as [?Hc H]).
    apply no_comma_spec in Hc, Hc0, Hc1.
    destruct i as [|[|[|[|j]]]]; cbn [nth].
    + split; [intros ->; discriminate | discriminate].
    + split; [intros ->; discriminate | discriminate].
    + split; [intros ->; discriminate | discriminate].
    + split; reflexivity.
    + replace (S (S (S (S j)))) with (j + 1 * 4)%nat by lia.
      rewrite Nat.Div0.mod_add. apply IH.
      * simpl. now rewrite Hc2, H.
      * cbn [length] in Hi. lia.
Qed.

End Grouping.

Lemma group3_rev_length (ds : list ascii) :
  ds <> [] -> (length (Py.group3_rev ds) mod 4 <> 0)%nat.
Proof.
  induction ds as [ds Hlen|a b c d r IH] using group3_induction; intros H.
  - rewrite group3_rev_short by assumption.
    destruct ds as [|a [|b [|c [|d r]]]]; simpl in *;
      [congruence | discriminate | discriminate | discriminate | lia].
  - rewrite group3_rev_long.
    change (length (a :: b :: c :: ","%char :: Py.group3_rev (d :: r)))
      with (4 + length (Py.group3_rev (d :: r)))%nat.
    replace (4 + length (Py.group3_rev (d :: r)))%nat
      with (length (Py.group3_rev (d :: r)) + 1 * 4)%nat by lia.
    rewrite Nat.Div0.mod_add. apply IH. discriminate.
Qed.

Lemma group3_rev_chars (ds : list ascii) :
  forallb is_digit ds = true ->
  forallb (fun c => is_digit c || is_comma c) (Py.group3_rev ds) = true.
Proof.
  induction ds as [ds Hlen|a b c d r IH] using group3_induction; intros H.
  - rewrite group3_rev_short by assumption.
    rewrite forallb_forall in *. intros x Hx. now rewrite (H x Hx).
  - rewrite group3_rev_long. simpl in H.
    repeat (apply andb_true_iff in H as [?Hc H]).
    cbn [forallb]. rewrite Hc, Hc0, Hc1. cbn [orb andb].
    change (is_digit "," || is_comma ",") with true. cbn [andb].
    apply IH. simpl. now rewrite Hc2, H.
Qed.

Lemma forallb_rev {A : Type} (p : A -> bool) (l : list A) :
  forallb p l = true -> forallb p (rev l) = true.
Proof.
  rewrite !forallb_forall. intros H x Hx. apply H. now apply in_rev.
Qed.

Lemma chars_group_thousands (s : string) :
  rev (chars (Py.group_thousands s)) = Py.group3_rev (rev (chars s)).
Proof.
  unfold Py.group_thousands, chars.
  now rewrite list_ascii_of_string_of_list_ascii, rev_involutive.
Qed.

Lemma strip_group_thousands (s : string) :
  forallb is_digit (chars s) = true ->
  strip_commas (Py.group_thousands s) = s.
Proof.
  intros H. unfold strip_commas.
  rewrite <- (rev_involutive (chars (Py.group_thousands s))).
  rewrite chars_group_thousands, filter_rev.
  rewrite (group3_rev_strip is_digit digit_is_no_comma)
    by now apply forallb_rev.
  rewrite rev_involutive. apply string_of_list_ascii_of_string.
Qed.

Lemma float_of_int_exact (n : Z) :
  (0 <= n <= 2 ^ 53)%Z -> Py.float_of_int n = Ok n.
Proof.
  intros Hn. destruct (Z.eq_dec n (2 ^ 53)) as [->|Hne].
  - vm_compute. reflexivity.
  - unfold Py.float_of_int. cbv zeta. rewrite Z.abs_eq by lia.
    destruct (n =? 0)%Z eqn:H0; [reflexivity|].
    apply Z.eqb_neq in H0.
    assert (Hlog : (Z.log2 n < 53)%Z) by (apply Z.log2_lt_pow2; lia).
    replace (Z.log2 n + 1 <=? 53)%Z with true; [reflexivity|].
    symmetry. apply Z.leb_le. lia.
Qed.

(** C8, as the code has it.  For an amount from 0 to 2^53,
    [format_currency] returns ["PHP"], U+202F NARROW NO-BREAK SPACE and a
    body of digits and commas with no decimal point: without its commas the
    body is the decimal numeral of the amount, counted from the right
    exactly every fourth character is a comma, and the body is not empty
    and does not start with a comma.  [format_currency 100000] is ["PHP"],
    U+202F, ["100,000"] and [format_currency 0] is ["PHP"], U+202F,
    ["0"]. *)
Theorem format_currency_grouped :
  (forall amount : Z,
     (0 <= amount <= 2 ^ 53)%Z ->
     exists body,
       format_currency amount = Ok ("PHP" ++ Py.NNBSP ++ body) /\
       parse_digits (strip_commas body) = Some (Z.to_N amount) /\
       forallb (fun c => is_digit c || is_comma c) (chars body) = true /\
       body <> EmptyString /\
       let from_right := rev (chars body) in
       (forall i, (i < length from_right)%nat ->
                  nth i from_right "0"%char = ","%char <-> (i mod 4 = 3)%nat) /\
       nth (length from_right - 1) from_right "0"%char <> ","%char)
  /\ format_currency 100000 = Ok ("PHP" ++ Py.NNBSP ++ "100,000")
  /\ format_currency 0 = Ok ("PHP" ++ Py.NNBSP ++ "0").
Proof.
  split; [|split; vm_compute; reflexivity].
  intros amount Hamount.
  set (ds := Py.digits (Z.to_N amount)).
  exists (Py.group_thousands ds).
  assert (Hds : forallb is_digit (chars ds) = true)
    by apply digits_are_digits.
  assert (Hrev : forallb is_digit (rev (chars ds)) = true)
    by now apply forallb_rev.
  assert (Hne : rev (chars ds) <> []).
  { intros H. apply (f_equal (@rev ascii)) in H.
    rewrite rev_involutive in H. simpl in H.
    apply (digits_nonempty (Z.to_N amount)). fold ds.
    rewrite <- (string_of_list_ascii_of_string ds). fold (chars ds).
    now rewrite H. }
  pose proof (group3_rev_length _ Hne) as Hlen.
  split; [|split; [|split; [|split]]].
  - unfold format_currency. rewrite (float_of_int_exact _ Hamount).
    cbn [bind]. unfold Py.format_comma_0f.
    replace (amount <? 0)%Z with false by (symmetry; apply Z.ltb_ge; lia).
    rewrite Z.abs_eq by lia. reflexivity.
  - rewrite strip_group_thousands by assumption. apply parse_digits_digits.
  - rewrite <- (rev_involutive (chars (Py.group_thousands ds))).
    apply forallb_rev. rewrite chars_group_thousands.
    now apply group3_rev_chars.
  - intros H. apply (f_equal chars) in H.
    apply (f_equal (@rev ascii)) in H.
    rewrite chars_group_thousands in H. simpl in H.
    rewrite H in Hlen. now apply Hlen.
  - cbv zeta. rewrite chars_group_thousands. split.
    + intros i Hi.
      now apply (group3_rev_positions is_digit digit_is_no_comma).
    + intros Hcomma.
      assert (Hpos : (length (Py.group3_rev (rev (chars ds))) <> 0)%nat).
      { intros H0. rewrite H0 in Hlen. now apply Hlen. }
      apply (group3_rev_positions is_digit digit_is_no_comma) in Hcomma;
        [|assumption|lia].
      apply Hlen.
      replace (length (Py.group3_rev (rev (chars ds))))
        with (S (length (Py.group3_rev (rev (chars ds))) - 1)) by lia.
      set (m := (length (Py.group3_rev (rev (chars ds))) - 1)%nat) in *.
      clearbody m.
      rewrite (Nat.div_mod_eq m 4), Hcomma.
      replace (S (4 * (m / 4) + 3)) with ((m / 4 + 1) * 4)%nat by lia.
      apply Nat.Div0.mod_mul.
Qed.

(** C8, as stated, fails: the prefix ends with U+202F, not with an
    ordinary space, and an amount above 2^53 is rounded to a double before
    its digits are written. *)
Lemma format_currency_counterexample :
  same_answer (format_currency 100000) (Ok "PHP 100,000") = false
  /\ same_answer (format_currency 0) (Ok "PHP 0") = false
  /\ format_currency (2 ^ 53 + 1)
     = Ok ("PHP" ++ Py.NNBSP ++ "9,007,199,254,740,992")
  /\ parse_digits (strip_commas "9,007,199,254,740,992")
     = Some (Z.to_N (2 ^ 53))
  /\ format_currency (2 ^ 1024) = Raise OverflowError.
Proof. repeat split; vm_compute; reflexivity. Qed.

(** * Further properties of the program *)

(** ** Looking a plan up *)

Lemma getitem_missing {A : Type} (d : list (string * A)) (key : string) :
  ~ In key (map fst d) -> getitem d key = Raise (KeyError key).
Proof.
  induction d as [|[k v] d IH]; simpl; intros H; [reflexivity|].
  destruct (String.eqb k key) eqn:Hk.
  - apply String.eqb_eq in Hk. elim H. now left.
  - apply IH. intros Hin. apply H. now right.
Qed.

(** X1.  [plan_info] returns a description that is not empty for each of
    the three plan names and raises [KeyError] with the name for every
    other name; the lookup is case-sensitive, so the lower-cased name
    ["basic"] raises. *)
Theorem plan_info_key_error (name : string) :
  (In name plan_names ->
   exists text, plan_info name = Ok text /\ text <> EmptyString)
  /\ (~ In name plan_names -> plan_info name = Raise (KeyError name))
  /\ plan_info "basic" = Raise (KeyError "basic").
Proof.
  split; [|split].
  - intros Hin. apply nonempty_answer_spec.
    pose proof plan_info_nonempty as Hall.
    rewrite forallb_forall in Hall. now apply Hall.
  - intros Hnot. unfold plan_info.
    now rewrite (getitem_missing POLICY_PLANS name Hnot).
  - reflexivity.
Qed.

(** ** Letter case *)

Lemma ascii_case_facts (c : ascii) :
  Py.ascii_lower (Py.ascii_upper c) = Py.ascii_lower c
  /\ Py.ascii_lower (Py.ascii_lower c) = Py.ascii_lower c
  /\ ((nat_of_ascii c <? 128)%nat = true ->
      (nat_of_ascii (Py.ascii_upper c) <? 128)%nat = true /\
      (nat_of_ascii (Py.ascii_lower c) <? 128)%nat = true)
  /\ (Py.is_lower c || Ascii.eqb c " " = true ->
      Py.ascii_lower c = c /\
      (nat_of_ascii c <? 128)%nat = true /\
      Py.is_alpha c = Py.is_lower c).
Proof.
  destruct c as [[] [] [] [] [] [] [] []]; vm_compute; repeat split;
    try reflexivity; try discriminate.
Qed.

Lemma isascii_map_upper (s : string) :
  Py.isascii s = true -> Py.isascii (Py.map_string Py.ascii_upper s) = true.
Proof.
  induction s as [|c s IH]; cbn [Py.isascii Py.map_string]; [reflexivity|].
  rewrite !andb_true_iff. intros [Hc Hs]. split; [|now apply IH].
  now apply (ascii_case_facts c).
Qed.

Lemma isascii_map_lower (s : string) :
  Py.isascii s = true -> Py.isascii (Py.map_string Py.ascii_lower s) = true.
Proof.
  induction s as [|c s IH]; cbn [Py.isascii Py.map_string]; [reflexivity|].
  rewrite !andb_true_iff. intros [Hc Hs]. split; [|now apply IH].
  now apply (ascii_case_facts c).
Qed.

Lemma lower_map_upper (s : string) :
  Py.map_string Py.ascii_lower (Py.map_string Py.ascii_upper s)
  = Py.map_string Py.ascii_lower s.
Proof.
  induction s as [|c s IH]; cbn [Py.map_string]; [reflexivity|].
  rewrite IH. f_equal. exact (proj1 (ascii_case_facts c)).
Qed.

Lemma lower_map_lower (s : string) :
  Py.map_string Py.ascii_lower (Py.map_string Py.ascii_lower s)
  = Py.map_string Py.ascii_lower s.
Proof.
  induction s as [|c s IH]; cbn [Py.map_string]; [reflexivity|].
  rewrite IH. f_equal. exact (proj1 (proj2 (ascii_case_facts c))).
Qed.

(** The answer depends on the question through its lower-cased form
    only. *)
Lemma answer_question_lower (ul : string -> string) (q1 q2 : string) :
  Py.lower ul q1 = Py.lower ul q2 ->
  answer_question ul q1 = answer_question ul q2.
Proof. intros H. unfold answer_question. now rewrite H. Qed.

(** X2.  The answer to an ASCII question does not depend on the case of its
    letters: the question in upper case and the question in lower case get
    the answer of the question itself. *)
Theorem answer_question_ignores_case
    (unicode_lower : string -> string) (question : string) :
  Py.isascii question = true ->
  answer_question unicode_lower (Py.map_string Py.ascii_upper question)
  = answer_question unicode_lower question
  /\ answer_question unicode_lower (Py.map_string Py.ascii_lower question)
     = answer_question unicode_lower question.
Proof.
  intros Hascii. split; apply answer_question_lower; unfold Py.lower.
  - rewrite (isascii_map_upper _ Hascii), Hascii. apply lower_map_upper.
  - rewrite (isascii_map_lower _ Hascii), Hascii. apply lower_map_lower.
Qed.

Lemma answer_question_ignores_case_witness :
  answer_question no_unicode
    (Py.map_string Py.ascii_upper "What are your Rates")
  = answer_question no_unicode "What are your Rates"
  /\ answer_question no_unicode
       (Py.map_string Py.ascii_lower "What are your Rates")
     = answer_question no_unicode "What are your Rates".
Proof.
  apply (answer_question_ignores_case no_unicode "What are your Rates").
  reflexivity.
Defined.

Lemma title_from_lowercase (ul : string -> string) (s : string) (b : bool) :
  lowercase_key s = true ->
  Py.isascii (Py.title_from b s) = true /\
  Py.map_string Py.ascii_lower (Py.title_from b s) = s.
Proof.
  revert b. induction s as [|c s IH]; intros b;
    cbn [lowercase_key Py.title_from Py.isascii Py.map_string];
    [now split|].
  rewrite andb_true_iff. intros [Hc Hs].
  destruct (IH (Py.is_alpha c) Hs) as [IH1 IH2].
  destruct (ascii_case_facts c) as (Hlu & _ & Hascii & Hkey).
  destruct (Hkey Hc) as (Hlow & H128 & _).
  destruct (Hascii H128) as [Hup Hlo].
  rewrite IH1, IH2. destruct b.
  - rewrite Hlo. split; [reflexivity|]. f_equal.
    destruct (ascii_case_facts c) as (_ & Hll & _). now rewrite Hll.
  - rewrite Hup. split; [reflexivity|]. f_equal. now rewrite Hlu.
Qed.

(** X3.  The display name of a coverage key made of lower-case letters and
    spaces differs from the key in letter case only: lower-casing the name
    that a plan description shows gives the key back.  Every key of the
    coverage table is such a key. *)
Theorem coverage_title_lowers_to_key (unicode_lower : string -> string) :
  (forall c, lowercase_key c = true ->
             Py.lower unicode_lower (coverage_title c) = c)
  /\ forallb lowercase_key coverage_keys = true.
Proof.
  split; [|vm_compute; reflexivity].
  intros c Hc. unfold coverage_title.
  destruct (String.eqb c "ctpl") eqn:Hctpl; cbn [negb].
  - apply String.eqb_eq in Hctpl. subst. reflexivity.
  - destruct (title_from_lowercase unicode_lower c false Hc) as [H1 H2].
    unfold Py.lower, Py.title. now rewrite H1.
Qed.

(** ** The set of answers *)

Lemma find_index_spec {A : Type} (p : A -> bool) (l : list A) :
  match find_index p l with
  | Some i =>
      (i < length l)%nat /\
      exists x, nth_error l i = Some x /\ find p l = Some x /\ p x = true
  | None => find p l = None /\ existsb p l = false
  end.
Proof.
  induction l as [|a l IH]; simpl; [now split|].
  destruct (p a) eqn:Ha.
  - split; [lia|]. now exists a.
  - destruct (find_index p l) as [i|]; simpl.
    + destruct IH as (Hlt & x & Hx). split; [lia|]. now exists x.
    + exact IH.
Qed.

(** The answer is the canned response at the rank of the question. *)
Lemma answer_at_rank (ul : string -> string) (question : string) :
  nth_error canned_responses (category_rank ul (Py.lower ul question))
  = Some (answer_question ul question).
Proof.
  unfold category_rank, answer_question, canned_responses.
  set (q := Py.lower ul question). fold plan_names.
  set (defs := COVERAGE_DEFINITIONS).
  set (by_name := fun plan_name => Py.str_in (Py.lower ul plan_name) q).
  pose proof (find_index_spec (definition_matches q) defs) as Hd.
  destruct (find_index (definition_matches q) defs) as [i|].
  - destruct Hd as (Hlt & [key definition] & Hnth & Hfind & _).
    rewrite Hfind, nth_error_app1 by now rewrite length_map.
    now rewrite nth_error_map, Hnth.
  - destruct Hd as [Hfind _]. rewrite Hfind.
    pose proof (find_index_spec by_name plan_names) as Hp.
    destruct (find_index by_name plan_names) as [j|].
    + destruct Hp as (Hlt & name & Hnth & Hfindp & _).
      rewrite Hfindp, nth_error_app2 by (rewrite length_map; lia).
      rewrite length_map.
      replace (length defs + j - length defs)%nat with j by lia.
      rewrite nth_error_app1 by now rewrite length_map.
      now rewrite nth_error_map, Hnth.
    + destruct Hp as [Hfindp _]. rewrite Hfindp.
      rewrite nth_error_app2 by (rewrite length_map; lia).
      rewrite nth_error_app2 by (rewrite !length_map; lia).
      rewrite !length_map.
      destruct (Py.any _ pricing_words); [|destruct (Py.any _ overview_words)].
      * replace (length defs + length plan_names + 0 - length defs
                 - length plan_names)%nat with 0%nat by lia.
        reflexivity.
      * replace (length defs + length plan_names + 1 - length defs
                 - length plan_names)%nat with 1%nat by lia.
        reflexivity.
      * replace (length defs + length plan_names + 2 - length defs
                 - length plan_names)%nat with 2%nat by lia.
        reflexivity.
Qed.

Lemma distinct_answers_NoDup (l : list (result string)) :
  distinct_answers l = true -> NoDup l.
Proof.
  induction l as [|r l IH]; simpl; [constructor|].
  rewrite andb_true_iff, negb_true_iff. intros [Hr Hl].
  constructor; [|now apply IH].
  intros Hin.
  assert (H : existsb (same_answer r) l = true).
  { apply existsb_exists. exists r. split; [assumption|].
    now apply same_answer_iff. }
  rewrite H in Hr. discriminate.
Qed.

(** X4.  The answers of [answer_question] are exactly the thirteen canned
    responses: every answer is one of the seven coverage definitions, the
    three plan descriptions, the pricing response, the overview or the
    fallback, each of the thirteen is the answer to some question, and no
    two of them are equal.  In particular no answer depends on the
    question beyond the choice among the thirteen. *)
Theorem answers_are_the_canned_responses (unicode_lower : string -> string) :
  (forall r,
     (exists question, answer_question unicode_lower question = r) <->
     In r canned_responses)
  /\ NoDup canned_responses
  /\ length canned_responses = 13%nat.
Proof.
  split; [|split].
  - intros r. split.
    + intros [question <-].
      exact (nth_error_In _ _ (answer_at_rank unicode_lower question)).
    + intros H.
      cbv [canned_responses COVERAGE_DEFINITIONS plan_names POLICY_PLANS
           map app fst snd In] in H.
      repeat (destruct H as [<-|H]); [..|contradiction].
      * exists "ctpl". vm_compute. reflexivity.
      * exists "own". vm_compute. reflexivity.
      * exists "acts". vm_compute. reflexivity.
      * exists "personal". vm_compute. reflexivity.
      * exists "malicious". vm_compute. reflexivity.
      * exists "roadside". vm_compute. reflexivity.
      * exists "loss". vm_compute. reflexivity.
      * exists "basic". vm_compute. reflexivity.
      * exists "standard". vm_compute. reflexivity.
      * exists "premium". vm_compute. reflexivity.
      * exists "price". vm_compute. reflexivity.
      * exists "benefits". vm_compute. reflexivity.
      * exists EmptyString. vm_compute. reflexivity.
  - apply distinct_answers_NoDup. vm_compute. reflexivity.
  - reflexivity.
Qed.

(** ** Questions inside longer questions *)

Lemma append_nil_r (s : string) : s ++ EmptyString = s.
Proof. induction s as [|c s IH]; simpl; [reflexivity | now rewrite IH]. Qed.

Lemma occurs_trans (a b c : string) : occurs a b -> occurs b c -> occurs a c.
Proof.
  intros (p1 & s1 & ->) (p2 & s2 & ->).
  exists (p2 ++ p1), (s1 ++ s2). now rewrite !append_assoc.
Qed.

Lemma str_in_mono (sub q1 q2 : string) :
  occurs q1 q2 -> Py.str_in sub q1 = true -> Py.str_in sub q2 = true.
Proof.
  intros H12 H. apply str_in_iff. apply str_in_iff in H.
  exact (occurs_trans _ _ _ H H12).
Qed.

Lemma existsb_mono {A : Type} (p1 p2 : A -> bool) (l : list A) :
  (forall x, p1 x = true -> p2 x = true) ->
  existsb p1 l = true -> existsb p2 l = true.
Proof.
  intros Himp. rewrite !existsb_exists. intros (x & Hin & Hx).
  exists x. split; [assumption | now apply Himp].
Qed.

Lemma find_index_mono {A : Type} (p1 p2 : A -> bool) (l : list A) (i : nat) :
  (forall x, p1 x = true -> p2 x = true) ->
  find_index p1 l = Some i ->
  exists j, find_index p2 l = Some j /\ (j <= i)%nat.
Proof.
  intros Himp. revert i. induction l as [|a l IH]; simpl; intros i;
    [discriminate|].
  destruct (p1 a) eqn:H1.
  - intros [= <-]. rewrite (Himp a H1). now exists 0%nat.
  - destruct (find_index p1 l) as [i'|]; simpl; [|discriminate].
    intros [= <-]. destruct (p2 a).
    + exists 0%nat. split; [reflexivity | lia].
    + destruct (IH i' eq_refl) as (j & -> & Hj). exists (S j).
      split; [reflexivity | lia].
Qed.

Lemma definition_matches_mono (q1 q2 : string) (item : string * string) :
  occurs q1 q2 ->
  definition_matches q1 item = true -> definition_matches q2 item = true.
Proof.
  intros H12. unfold definition_matches, Py.re_search, Py.any.
  apply existsb_mono. intros alternative. now apply str_in_mono.
Qed.

Lemma any_word_mono (words : list string) (q1 q2 : string) :
  occurs q1 q2 ->
  Py.any (fun word => Py.str_in word q1) words = true ->
  Py.any (fun word => Py.str_in word q2) words = true.
Proof.
  intros H12. unfold Py.any. apply existsb_mono.
  intros word. now apply str_in_mono.
Qed.

Lemma category_rank_mono (ul : string -> string) (q1 q2 : string) :
  occurs q1 q2 -> (category_rank ul q2 <= category_rank ul q1)%nat.
Proof.
  intros H12. unfold category_rank.
  set (defs := COVERAGE_DEFINITIONS).
  set (by_name := fun q plan_name => Py.str_in (Py.lower ul plan_name) q).
  change (fun plan_name => Py.str_in (Py.lower ul plan_name) q1)
    with (by_name q1).
  change (fun plan_name => Py.str_in (Py.lower ul plan_name) q2)
    with (by_name q2).
  pose proof (find_index_spec (definition_matches q2) defs) as Hd2.
  pose proof (find_index_spec (by_name q2) plan_names) as Hp2.
  pose proof (find_index_mono (definition_matches q1) (definition_matches q2)
                defs) as Hdm.
  pose proof (find_index_mono (by_name q1) (by_name q2) plan_names) as Hpm.
  destruct (find_index (definition_matches q1) defs) as [i1|].
  - destruct (Hdm i1) as (j & -> & Hj); [|reflexivity|assumption].
    intros item. now apply definition_matches_mono.
  - clear Hdm.
    destruct (find_index (definition_matches q2) defs) as [i2|].
    + destruct Hd2 as [Hlt _].
      destruct (find_index (by_name q1) plan_names); lia.
    + clear Hd2.
      destruct (find_index (by_name q1) plan_names) as [j1|].
      * destruct (Hpm j1) as (j & -> & Hj); [|reflexivity|lia].
        intros name. unfold by_name. now apply str_in_mono.
      * clear Hpm.
        destruct (find_index (by_name q2) plan_names) as [j2|].
        -- destruct Hp2 as [Hlt _]. lia.
        -- pose proof (any_word_mono pricing_words _ _ H12) as Hw.
           pose proof (any_word_mono overview_words _ _ H12) as Ho.
           destruct (Py.any _ pricing_words).
           ++ rewrite Hw by reflexivity. lia.
           ++ destruct (Py.any _ pricing_words); [lia|].
              destruct (Py.any _ overview_words).
              ** rewrite Ho by reflexivity. lia.
              ** destruct (Py.any _ overview_words); lia.
Qed.

(** X5.  Text added around a question can only move its answer forward in
    the order of precedence.  When the lower-cased form of one question
    occurs in the lower-cased form of another, the answer to the longer
    question stands in [canned_responses] at the position of the answer to
    the shorter one or before it: a question answered with a coverage
    definition stays answered with that definition or an earlier one, and
    nothing added to a question that is answered turns it into a
    fallback. *)
Theorem longer_question_ranks_earlier
    (unicode_lower : string -> string) (short long : string) :
  occurs (Py.lower unicode_lower short) (Py.lower unicode_lower long) ->
  exists i j,
    (j <= i)%nat /\
    nth_error canned_responses i
    = Some (answer_question unicode_lower short) /\
    nth_error canned_responses j
    = Some (answer_question unicode_lower long).
Proof.
  intros H.
  exists (category_rank unicode_lower (Py.lower unicode_lower short)),
         (category_rank unicode_lower (Py.lower unicode_lower long)).
  split; [now apply category_rank_mono|].
  split; apply answer_at_rank.
Qed.

Lemma longer_question_ranks_earlier_witness :
  exists i j,
    (j <= i)%nat /\
    nth_error canned_responses i
    = Some (answer_question no_unicode "what are your rates") /\
    nth_error canned_responses j
    = Some (answer_question no_unicode
              "what are your rates for the Basic plan").
Proof.
  apply (longer_question_ranks_earlier no_unicode "what are your rates"
           "what are your rates for the Basic plan").
  apply str_in_iff. vm_compute. reflexivity.
Defined.

(** ** The chat page *)

Lemma canned_responses_nonempty :
  forallb nonempty_answer canned_responses = true.
Proof. vm_compute. reflexivity. Qed.

Lemma answer_question_returns (ul : string -> string) (question : string) :
  exists text, answer_question ul question = Ok text /\ text <> EmptyString.
Proof.
  apply nonempty_answer_spec.
  pose proof canned_responses_nonempty as Hall.
  rewrite forallb_forall in Hall. apply Hall.
  exact (nth_error_In _ _ (answer_at_rank ul question)).
Qed.

Lemma shown_app (a b : list st_call) :
  shown (a ++ b) = (shown a ++ shown b)%list.
Proof. apply flat_map_app. Qed.

Lemma shown_history (history : list message) :
  shown (map (fun m => chat_message (role m) (content m)) history) = history.
Proof.
  induction history as [|[r c] history IH]; [reflexivity|].
  cbn [map shown flat_map role content app]. f_equal. exact IH.
Qed.

(** What one run of [main] does to the history and shows of it. *)
Lemma main_run (ul : string -> string) (session_state : option (list message))
    (run : page_run) :
  let old := match session_state with None => [] | Some m => m end in
  (truthy (user_input run) = false /\
   exists calls,
     main ul session_state run = (old, calls, Ok tt) /\ shown calls = old)
  \/ (exists text reply calls,
        user_input run = Some text /\ text <> EmptyString /\
        answer_question ul text = Ok reply /\
        main ul session_state run
        = (app old [user_message text; assistant_message reply], calls, Ok tt)
        /\ shown calls
           = app old [user_message text; assistant_message reply]).
Proof.
  intros old. unfold main. fold old.
  set (head := append_item
                 (append_item
                    (if header_exists run then _ else _) (title _)) (write _)).
  assert (Hhead : shown head = []) by (subst head; now destruct (header_exists run)).
  destruct (user_input run) as [[|c text]|] eqn:Hinput; cbn [truthy].
  - left. split; [reflexivity|]. eexists. split; [reflexivity|].
    unfold append_item. rewrite !shown_app, Hhead, shown_history.
    cbn [shown flat_map app]. now rewrite app_nil_r.
  - right.
    destruct (answer_question_returns ul (String c text)) as (reply & Hr & _).
    exists (String c text), reply. rewrite Hr. eexists.
    split; [reflexivity|]. split; [discriminate|]. split; [reflexivity|].
    unfold append_item. split.
    + rewrite <- app_assoc. reflexivity.
    + rewrite !shown_app, Hhead, shown_history.
      cbn [shown flat_map app]. rewrite app_nil_r, <- app_assoc. reflexivity.
  - left. split; [reflexivity|]. eexists. split; [reflexivity|].
    unfold append_item. rewrite !shown_app, Hhead, shown_history.
    cbn [shown flat_map app]. now rewrite app_nil_r.
Qed.

(** X6.  One run of [main] never raises and never touches the messages
    already in the history: it leaves the history as it is when nothing or
    the empty text was submitted, and otherwise appends exactly two
    messages, the submitted text with the role ["user"] and the answer of
    [answer_question] to it with the role ["assistant"]. *)
Theorem main_appends_one_turn
    (unicode_lower : string -> string)
    (session_state : option (list message)) (run : page_run) :
  let old := match session_state with None => [] | Some m => m end in
  exists new calls,
    main unicode_lower session_state run = (app old new, calls, Ok tt) /\
    ((truthy (user_input run) = false /\ new = [])
     \/ (exists text reply,
           user_input run = Some text /\ text <> EmptyString /\
           answer_question unicode_lower text = Ok reply /\
           new = [user_message text; assistant_message reply])).
Proof.
  intros old.
  destruct (main_run unicode_lower session_state run)
    as [(Hfalse & calls & Hmain & _)
       |(text & reply & calls & Hin & Hne & Hans & Hmain & _)];
    fold old in Hmain.
  - exists [], calls. rewrite app_nil_r. split; [assumption|]. now left.
  - exists [user_message text; assistant_message reply], calls.
    split; [assumption|]. right. now exists text, reply.
Qed.

(** X7.  The chat messages that one run of [main] puts on the page are the
    messages of the history as it stands after the run, each once and in
    order: the earlier messages first, then the new question and its
    answer. *)
Theorem main_shows_the_history
    (unicode_lower : string -> string)
    (session_state : option (list message)) (run : page_run) :
  exists history calls,
    main unicode_lower session_state run = (history, calls, Ok tt) /\
    shown calls = history.
Proof.
  destruct (main_run unicode_lower session_state run)
    as [(_ & calls & Hmain & Hshown)
       |(text & reply & calls & _ & _ & _ & Hmain & Hshown)];
    eexists; exists calls; split; eassumption.
Qed.

Lemma conversation_app (ul : string -> string) (qs1 qs2 : list string)
    (h1 h2 : list message) :
  conversation ul qs1 h1 -> conversation ul qs2 h2 ->
  conversation ul (qs1 ++ qs2) (h1 ++ h2).
Proof.
  intros H1 H2. induction H1 as [|q reply qs h Hq H1 IH]; [exact H2|].
  cbn [app]. now constructor.
Qed.

Lemma session_from (ul : string -> string) (runs : list page_run) :
  forall (session_state : option (list message)) (questions : list string),
    conversation ul questions
      (match session_state with None => [] | Some m => m end) ->
    exists history pages,
      session ul session_state runs = (history, pages, Ok tt) /\
      conversation ul (questions ++ submitted runs) history /\
      length pages = length runs.
Proof.
  induction runs as [|run runs IH]; intros session_state questions Hconv.
  - cbn [session submitted flat_map]. rewrite app_nil_r.
    eexists. exists []. now repeat split.
  - cbn [session].
    destruct (main_run ul session_state run)
      as [(Hfalse & calls & Hmain & _)
         |(text & reply & calls & Hin & Hne & Hans & Hmain & _)];
      rewrite Hmain.
    + destruct (IH (Some (match session_state with
                          | None => []
                          | Some m => m
                          end)) questions Hconv)
        as (history & pages & Hs & Hc & Hlen).
      rewrite Hs. exists history, (calls :: pages).
      split; [reflexivity|]. split; [|cbn [length]; now rewrite Hlen].
      replace (submitted (run :: runs)) with (submitted runs); [assumption|].
      unfold submitted. cbn [flat_map].
      destruct (user_input run) as [[|c t]|]; try reflexivity. discriminate.
    + assert (Hturn : conversation ul (questions ++ [text])
                        (app (match session_state with
                              | None => []
                              | Some m => m
                              end)
                             [user_message text; assistant_message reply])).
      { apply conversation_app; [assumption|]. repeat constructor. assumption. }
      destruct (IH (Some _) _ Hturn) as (history & pages & Hs & Hc & Hlen).
      rewrite Hs. exists history, (calls :: pages).
      split; [reflexivity|]. split; [|cbn [length]; now rewrite Hlen].
      replace (submitted (run :: runs)) with (text :: submitted runs).
      * now rewrite <- app_assoc in Hc.
      * unfold submitted. cbn [flat_map]. rewrite Hin.
        destruct text; [now elim Hne | reflexivity].
Qed.

(** X8.  A session that starts without a history and runs [main] once per
    interaction never raises, and its history is the log of the questions
    submitted, in order: for each text that is not empty, the user's
    message followed by the assistant's message with the answer of
    [answer_question] to that text.  Runs without a submitted text leave
    no trace in the history. *)
Theorem session_history_is_the_conversation
    (unicode_lower : string -> string) (runs : list page_run) :
  exists history pages,
    session unicode_lower None runs = (history, pages, Ok tt) /\
    conversation unicode_lower (submitted runs) history /\
    length pages = length runs /\
    length history = (2 * length (submitted runs))%nat.
Proof.
  destruct (session_from unicode_lower runs None [] (conversation_nil _))
    as (history & pages & Hs & Hc & Hlen).
  exists history, pages. cbn [app] in Hc. repeat split; try assumption.
  clear Hs. induction Hc as [|q reply qs h Hq Hc IH]; [reflexivity|].
  cbn [length]. rewrite IH. lia.
Qed.

(** ** Summaries and plan descriptions *)

Lemma split_no_separator (sep : ascii) (s : string) :
  Py.str_in (String sep EmptyString) s = false -> Py.split sep s = [s].
Proof.
  induction s as [|c s IH]; [reflexivity|].
  cbn [Py.str_in Py.split]. simpl prefix.
  destruct (ascii_dec sep c) as [->|Hne].
  - destruct s; discriminate.
  - assert (Hc : Ascii.eqb c sep = false)
      by (apply Ascii.eqb_neq; congruence).
    rewrite Hc. simpl orb. intros H. now rewrite (IH H).
Qed.

(** X12.  The summary [definition.split(".")[0] + "."] never raises
    [IndexError].  For a text with a full stop it is the text cut after the
    first full stop; for a text without one, the empty text included, it is
    the whole text with a full stop added. *)
Theorem summary_of_any_text (definition : string) :
  exists sentence,
    summary definition = Ok sentence /\
    (occurs "." definition -> first_sentence_of definition sentence) /\
    (~ occurs "." definition -> sentence = definition ++ ".").
Proof.
  destruct (Py.str_in "." definition) eqn:Hdot.
  - destruct (summary_first_sentence _ Hdot) as (sentence & Hs & Hfirst).
    exists sentence. split; [assumption|]. split; [now intros _|].
    intros Hno. apply str_in_false_iff in Hno. congruence.
  - exists (definition ++ "."). split; [|split].
    + unfold summary. now rewrite (split_no_separator _ _ Hdot).
    + intros Hocc. apply str_in_iff in Hocc. congruence.
    + reflexivity.
Qed.

Lemma plans_name_their_coverage :
  forallb (fun item => forallb (names_its_coverage item) coverage_keys)
          POLICY_PLANS = true.
Proof. vm_compute. reflexivity. Qed.

(** X13.  The description of a plan names the coverage it includes and no
    other: for every plan of the table and every key of the coverage
    table, the display name of the key occurs in the description exactly
    when the key is in the coverage list of the plan. *)
Theorem plan_description_names_its_coverage
    (name : string) (p : plan) (key : string) :
  In (name, p) POLICY_PLANS ->
  In key coverage_keys ->
  exists text,
    plan_info name = Ok text /\
    (occurs (coverage_title key) text <-> In key (coverage p)).
Proof.
  intros Hplan Hkey.
  pose proof plans_name_their_coverage as Hall.
  rewrite forallb_forall in Hall. specialize (Hall _ Hplan).
  rewrite forallb_forall in Hall. specialize (Hall _ Hkey).
  unfold names_its_coverage in Hall. cbn [fst snd] in Hall.
  assert (Hname : In name plan_names).
  { change name with (fst (name, p)). now apply in_map. }
  pose proof plan_info_nonempty as Hne.
  rewrite forallb_forall in Hne.
  destruct (nonempty_answer_spec _ (Hne _ Hname)) as (text & Htext & _).
  exists text. split; [assumption|].
  rewrite Htext in Hall. cbn [answer_contains] in Hall.
  apply Bool.eqb_prop in Hall.
  rewrite <- str_in_iff, Hall, existsb_exists. split.
  - intros (k & Hin & Heq). apply String.eqb_eq in Heq. now subst.
  - intros Hin. exists key. split; [assumption | apply String.eqb_refl].
Qed.

Lemma plan_description_names_its_coverage_witness :
  exists text,
    plan_info "Standard" = Ok text /\
    (occurs (coverage_title "personal accident") text <->
     In "personal accident" (coverage plan_standard)).
Proof.
  apply (plan_description_names_its_coverage "Standard" plan_standard
           "personal accident").
  - simpl. right. left. reflexivity.
  - simpl. tauto.
Defined.

(** ** Amounts of any size *)

Local Open Scope Z_scope.

(** The parts of a magnitude that does not fit in 53 bits: the 53 leading
    bits [q], the number [s] of bits dropped and their value [r]. *)
Lemma float_of_int_large (n : Z) :
  2 ^ 53 <= Z.abs n ->
  exists s q r,
    1 <= s /\ 2 ^ 52 <= q < 2 ^ 53 /\ 0 <= r < 2 ^ s /\
    Z.abs n = q * 2 ^ s + r /\
    Py.float_of_int n =
    (let q' := if (2 ^ (s - 1) <? r) || ((r =? 2 ^ (s - 1)) && Z.odd q)
               then q + 1 else q in
     if 2 ^ 1024 <=? q' * 2 ^ s then Raise OverflowError
     else Ok (Z.sgn n * (q' * 2 ^ s))).
Proof.
  intros Ha. set (a := Z.abs n) in *.
  assert (Hpos : 0 < a) by (assert (0 < 2 ^ 53) by reflexivity; lia).
  assert (Hlog : 53 <= Z.log2 a) by (apply Z.log2_le_pow2; assumption).
  destruct (Z.log2_spec a Hpos) as [Hlo Hhi].
  set (s := Z.log2 a + 1 - 53).
  assert (Hs : 1 <= s) by (unfold s; lia).
  assert (Hpow : 0 < 2 ^ s) by (apply Z.pow_pos_nonneg; lia).
  assert (Hsplit : 2 ^ Z.log2 a = 2 ^ 52 * 2 ^ s).
  { rewrite <- Z.pow_add_r by lia. f_equal. unfold s. lia. }
  assert (Hsucc : 2 ^ Z.succ (Z.log2 a) = 2 ^ 53 * 2 ^ s).
  { rewrite <- Z.pow_add_r by lia. f_equal. unfold s. lia. }
  exists s, (a / 2 ^ s), (a mod 2 ^ s).
  split; [assumption|]. split; [|split; [|split]].
  - split.
    + apply Z.div_le_lower_bound; [assumption|]. lia.
    + apply Z.div_lt_upper_bound; [assumption|]. lia.
  - apply Z.mod_pos_bound. assumption.
  - rewrite Z.mul_comm. apply Z.div_mod. lia.
  - unfold Py.float_of_int. fold a. cbv zeta.
    replace (a =? 0) with false by (symmetry; apply Z.eqb_neq; lia).
    replace (Z.log2 a + 1 <=? 53) with false
      by (symmetry; apply Z.leb_gt; lia).
    fold s. rewrite Z.shiftr_div_pow2 by lia.
    rewrite !Z.shiftl_mul_pow2 by lia.
    rewrite !Z.mul_1_l.
    replace (a - a / 2 ^ s * 2 ^ s) with (a mod 2 ^ s)
      by (rewrite Z.mod_eq by lia; lia).
    reflexivity.
Qed.

(** Below [2^53] the conversion is exact. *)
Lemma float_of_int_small (n : Z) :
  Z.abs n < 2 ^ 53 -> Py.float_of_int n = Ok n.
Proof.
  intros Hn. unfold Py.float_of_int. cbv zeta.
  destruct (Z.abs n =? 0) eqn:H0; [reflexivity|].
  apply Z.eqb_neq in H0.
  assert (Hlog : Z.log2 (Z.abs n) < 53) by (apply Z.log2_lt_pow2; lia).
  replace (Z.log2 (Z.abs n) + 1 <=? 53) with true; [reflexivity|].
  symmetry. apply Z.leb_le. lia.
Qed.

(** The double is within half a unit in the last place of the integer. *)
Lemma float_of_int_error (n x : Z) :
  Py.float_of_int n = Ok x -> Z.abs (x - n) * 2 ^ 53 <= Z.abs n.
Proof.
  destruct (Z_lt_le_dec (Z.abs n) (2 ^ 53)) as [Hsmall|Hlarge].
  - rewrite (float_of_int_small n Hsmall). intros [= <-].
    rewrite Z.sub_diag. simpl Z.abs. lia.
  - destruct (float_of_int_large n Hlarge)
      as (s & q & r & Hs & Hq & Hr & Ha & ->).
    cbv zeta.
    assert (Hhalf : 2 ^ s = 2 * 2 ^ (s - 1)).
    { replace s with (1 + (s - 1)) at 1 by lia.
      rewrite Z.pow_add_r by lia. reflexivity. }
    assert (Hhpos : 0 < 2 ^ (s - 1)) by (apply Z.pow_pos_nonneg; lia).
    set (P := 2 ^ s) in *. set (H := 2 ^ (s - 1)) in *.
    set (K := 2 ^ 52) in *. set (K' := 2 ^ 53) in *.
    assert (HK : K' = 2 * K) by reflexivity.
    destruct (_ <=? _); [discriminate|]. intros [= <-].
    assert (Hbound : forall q', (q' = q /\ r <= H) \/ (q' = q + 1 /\ H <= r) ->
                     Z.abs (Z.sgn n * (q' * P) - n) * K' <= Z.abs n).
    { intros q' Hq'.
      assert (Hdiff : Z.abs (q' * P - Z.abs n) <= H) by nia.
      assert (Hbig : H * K' <= Z.abs n) by nia.
      assert (Hsgn : Z.abs (Z.sgn n * (q' * P) - n) = Z.abs (q' * P - Z.abs n)).
      { destruct (Z.sgn_spec n) as [[Hn ->]|[[Hn ->]|[Hn ->]]]; lia. }
      rewrite Hsgn. nia. }
    apply Hbound.
    destruct (H <? r) eqn:Hlt; cbn [orb].
    + right. apply Z.ltb_lt in Hlt. lia.
    + apply Z.ltb_ge in Hlt.
      destruct (r =? H) eqn:Heq; cbn [andb].
      * apply Z.eqb_eq in Heq. destruct (Z.odd q); [right|left]; lia.
      * left. lia.
Qed.

(** The conversion overflows from [2^1024 - 2^970] on. *)
Lemma float_of_int_overflow (n : Z) :
  (2 ^ 1024 - 2 ^ 970 <= Z.abs n -> Py.float_of_int n = Raise OverflowError)
  /\ (Z.abs n < 2 ^ 1024 - 2 ^ 970 -> exists x, Py.float_of_int n = Ok x).
Proof.
  destruct (Z_lt_le_dec (Z.abs n) (2 ^ 53)) as [Hsmall|Hlarge].
  { split.
    - intros H. exfalso.
      assert (2 ^ 53 < 2 ^ 1024 - 2 ^ 970) by reflexivity. lia.
    - intros _. exists n. now apply float_of_int_small. }
  destruct (float_of_int_large n Hlarge)
    as (s & q & r & Hs & Hq & Hr & Ha & ->).
  cbv zeta.
  assert (Hhalf : 2 ^ s = 2 * 2 ^ (s - 1)).
  { replace s with (1 + (s - 1)) at 1 by lia.
    rewrite Z.pow_add_r by lia. reflexivity. }
  destruct (Z_lt_le_dec s 971) as [Hlow|Hhigh].
  - (* s <= 970: no overflow, and the magnitude is below the threshold *)
    assert (HP : 2 ^ s <= 2 ^ 970) by (apply Z.pow_le_mono_r; lia).
    set (P := 2 ^ s) in *.
    assert (Hq' : forall q', q' <= q + 1 -> (2 ^ 1024 <=? q' * P) = false).
    { intros q' Hle. apply Z.leb_gt.
      assert (q' * P <= 2 ^ 53 * 2 ^ 970) by nia.
      assert (2 ^ 53 * 2 ^ 970 < 2 ^ 1024) by reflexivity. lia. }
    split.
    + intros HT. exfalso.
      assert (Z.abs n < 2 ^ 53 * 2 ^ 970) by nia.
      assert (2 ^ 53 * 2 ^ 970 <= 2 ^ 1024 - 2 ^ 970) by (vm_compute; discriminate).
      lia.
    + intros _. destruct (_ || _); rewrite Hq' by lia; eexists; reflexivity.
  - destruct (Z.eq_dec s 971) as [->|Hne].
    + (* s = 971: the threshold case *)
      change (971 - 1) with 970 in *.
      set (P := 2 ^ 971) in *. set (H := 2 ^ 970) in *.
      set (T := 2 ^ 1024) in *.
      assert (HT : T = 2 ^ 53 * P) by reflexivity.
      set (K := 2 ^ 53) in *. set (K2 := 2 ^ 52) in *.
      assert (HK : K = 2 * K2) by reflexivity.
      assert (Hodd : Z.odd (K - 1) = true) by reflexivity.
      assert (HK2 : 0 < K2) by reflexivity.
      assert (HH : 0 < H) by reflexivity.
      clearbody P H T K K2.
      split.
      * intros Hge.
        assert (Hqe : q = K - 1) by nia. subst q.
        assert (Hrh : H <= r) by nia.
        rewrite Hodd.
        replace ((H <? r) || ((r =? H) && true)) with true.
        -- replace (T <=? (K - 1 + 1) * P) with true; [reflexivity|].
           symmetry. apply Z.leb_le. nia.
        -- symmetry. destruct (H <? r) eqn:Hlt; [reflexivity|].
           apply Z.ltb_ge in Hlt. cbn [orb].
           replace (r =? H) with true; [reflexivity|].
           symmetry. apply Z.eqb_eq. lia.
      * intros Hlt.
        assert (Hcase : q <= K - 2 \/ (q = K - 1 /\ r < H)) by nia.
        destruct Hcase as [Hq2|[-> Hr2]].
        -- assert (Hno : forall q', q' <= q + 1 -> (T <=? q' * P) = false).
           { intros q' Hle. apply Z.leb_gt. nia. }
           destruct (_ || _); rewrite Hno by lia; eexists; reflexivity.
        -- replace (H <? r) with false by (symmetry; apply Z.ltb_ge; lia).
           replace (r =? H) with false by (symmetry; apply Z.eqb_neq; lia).
           cbn [orb andb].
           replace (T <=? (K - 1) * P) with false
             by (symmetry; apply Z.leb_gt; nia).
           eexists. reflexivity.
    + (* s >= 972: always overflow, and the magnitude is above the threshold *)
      assert (HP : 2 ^ 972 <= 2 ^ s) by (apply Z.pow_le_mono_r; lia).
      set (P := 2 ^ s) in *.
      assert (Hq' : forall q', q <= q' -> (2 ^ 1024 <=? q' * P) = true).
      { intros q' Hle. apply Z.leb_le.
        assert (2 ^ 52 * 2 ^ 972 <= q' * P) by nia.
        assert (2 ^ 1024 = 2 ^ 52 * 2 ^ 972) by reflexivity. lia. }
      split.
      * intros _. destruct (_ || _); rewrite Hq' by lia; reflexivity.
      * intros Hlt. exfalso.
        assert (2 ^ 52 * 2 ^ 972 <= Z.abs n) by nia.
        assert (2 ^ 1024 = 2 ^ 52 * 2 ^ 972) by reflexivity. lia.
Qed.

Lemma strip_prefix_app (p s : string) : strip_prefix p (p ++ s) = Some s.
Proof.
  induction p as [|a p IH]; [reflexivity|].
  cbn [strip_prefix append]. now rewrite Ascii.eqb_refl.
Qed.

Lemma group_thousands_chars (s : string) :
  forallb is_digit (chars s) = true ->
  forallb (fun c => is_digit c || is_comma c) (chars (Py.group_thousands s))
  = true.
Proof.
  intros H. rewrite <- (rev_involutive (chars (Py.group_thousands s))).
  apply forallb_rev. rewrite chars_group_thousands.
  apply group3_rev_chars. now apply forallb_rev.
Qed.

Lemma no_minus (g : string) :
  forallb (fun c => is_digit c || is_comma c) (chars g) = true ->
  strip_prefix "-" g = None.
Proof.
  destruct g as [|c g]; [reflexivity|].
  cbn [chars list_ascii_of_string forallb strip_prefix].
  rewrite andb_true_iff. intros [Hc _].
  destruct (Ascii.eqb "-" c) eqn:Heq; [|reflexivity].
  apply Ascii.eqb_eq in Heq. subst c. discriminate.
Qed.

(** Reading back what [format_comma_0f] wrote. *)
Lemma parse_amount_format (x : Z) :
  parse_amount ("PHP" ++ Py.NNBSP ++ Py.format_comma_0f x) = Some x.
Proof.
  unfold parse_amount.
  change ("PHP" ++ Py.NNBSP ++ Py.format_comma_0f x)
    with (("PHP" ++ Py.NNBSP) ++ Py.format_comma_0f x).
  rewrite strip_prefix_app. unfold Py.format_comma_0f.
  set (ds := Py.digits (Z.to_N (Z.abs x))).
  assert (Hds : forallb is_digit (chars ds) = true) by apply digits_are_digits.
  destruct (x <? 0) eqn:Hsign.
  - apply Z.ltb_lt in Hsign.
    change ("-" ++ Py.group_thousands ds)
      with (String "-" (Py.group_thousands ds)).
    cbn [strip_prefix]. rewrite Ascii.eqb_refl.
    rewrite strip_group_thousands by assumption.
    unfold ds. rewrite parse_digits_digits. cbn [option_map].
    f_equal. rewrite Z2N.id by lia. lia.
  - apply Z.ltb_ge in Hsign.
    change (EmptyString ++ Py.group_thousands ds)
      with (Py.group_thousands ds).
    rewrite (no_minus _ (group_thousands_chars _ Hds)).
    rewrite strip_group_thousands by assumption.
    unfold ds. rewrite parse_digits_digits. cbn [option_map].
    f_equal. rewrite Z2N.id by lia. lia.
Qed.

(** X9.  For an amount of magnitude up to 2^53, negative amounts included,
    [format_currency] returns a text from which the amount can be read
    back: after the prefix, an optional minus sign and the grouped digits
    denote the amount itself.  So two such amounts with the same text are
    equal. *)
Theorem format_currency_round_trip (amount : Z) :
  Z.abs amount <= 2 ^ 53 ->
  exists text,
    format_currency amount = Ok text /\ parse_amount text = Some amount.
Proof.
  intros Hamount.
  assert (Hexact : Py.float_of_int amount = Ok amount).
  { destruct (Z.eq_dec (Z.abs amount) (2 ^ 53)) as [Heq|Hne].
    - assert (Hcases : amount = 2 ^ 53 \/ amount = - 2 ^ 53) by lia.
      destruct Hcases as [->| ->]; vm_compute; reflexivity.
    - apply float_of_int_small. lia. }
  eexists. unfold format_currency. rewrite Hexact. cbn [bind].
  split; [reflexivity|]. apply parse_amount_format.
Qed.

Lemma format_currency_round_trip_witness :
  exists text,
    format_currency (-1234567) = Ok text /\
    parse_amount text = Some (-1234567).
Proof.
  apply (format_currency_round_trip (-1234567)). vm_compute. discriminate.
Defined.

(** X10.  [format_currency] raises [OverflowError] exactly for the amounts
    whose magnitude is at least 2^1024 - 2^970, the integers that round to a
    double out of range; for every other amount it returns a text. *)
Theorem format_currency_overflow (amount : Z) :
  (2 ^ 1024 - 2 ^ 970 <= Z.abs amount ->
   format_currency amount = Raise OverflowError)
  /\ (Z.abs amount < 2 ^ 1024 - 2 ^ 970 ->
      exists text, format_currency amount = Ok text).
Proof.
  destruct (float_of_int_overflow amount) as [Hover Hfine].
  unfold format_currency. split.
  - intros H. now rewrite (Hover H).
  - intros H. destruct (Hfine H) as [x ->]. cbn [bind]. eexists. reflexivity.
Qed.

(** X11.  Whenever [format_currency] returns, the number written in the
    text is the amount rounded to a double: it differs from the amount by
    at most the amount's magnitude divided by 2^53. *)
Theorem format_currency_rounding (amount : Z) (text : string) :
  format_currency amount = Ok text ->
  exists x,
    parse_amount text = Some x /\
    Z.abs (x - amount) * 2 ^ 53 <= Z.abs amount.
Proof.
  unfold format_currency.
  destruct (Py.float_of_int amount) as [x|e] eqn:Hx; cbn [bind];
    [|discriminate].
  intros H. apply Ok_inj in H. subst text. exists x. split.
  - apply parse_amount_format.
  - now apply float_of_int_error.
Qed.

Lemma format_currency_rounding_witness :
  exists x,
    parse_amount ("PHP" ++ Py.NNBSP ++ "9,007,199,254,740,992") = Some x /\
    Z.abs (x - (2 ^ 53 + 1)) * 2 ^ 53 <= Z.abs (2 ^ 53 + 1).
Proof.
  apply (format_currency_rounding (2 ^ 53 + 1)). vm_compute. reflexivity.
Defined.
